(** * ComfyUI_Model_Cache: the LRU model cache of [hijack/cache_manager.py]

    A shallow embedding of [ModelValidChecker] and [ModelCache] and the
    properties of their eviction, recency and validity logic.

    Python objects live in a heap of live objects that code outside the cache
    may mutate at any time; every method that inspects an object therefore
    takes the heap of the moment it is called in.  Methods of [ModelCache]
    mutate [self] and may raise: they are written in a small state-and-error
    monad whose state survives a raise, as the attributes of a Python object
    do. *)

From Stdlib Require Import ZArith Lia.
From stdpp Require Import gmap strings list fin_maps pretty.

(** ** The Python side: objects, heap, exceptions *)

(** Object identity.  A Python value is always a reference to an object. *)
Definition loc := nat.

(** The shapes of object the cache tells apart with [isinstance]:
    a [torch.nn.Module] (through its [state_dict()], names to tensors),
    a [dict] (keys to values), a [tuple] (immutable sequence of references),
    and everything else. *)
Inductive pyobj : Type :=
| PyModule (state_dict : gmap string loc)
| PyDict (items : gmap string loc)
| PyTuple (elts : list loc)
| PyOther.

(** The live objects: what each reference denotes right now. *)
Definition heap := loc → pyobj.

Inductive exn : Type := IndexError | KeyError | ValueError.

Inductive outcome (A : Type) : Type :=
| Ok (a : A)
| Raise (e : exn).
Arguments Ok {A} a.
Arguments Raise {A} e.

Global Instance exn_eq_dec : EqDecision exn.
Proof. solve_decision. Defined.

(** ** State-and-error monad for methods that mutate [self] *)

Definition M (S A : Type) : Type := S → outcome A * S.

Definition ret {S A} (a : A) : M S A := λ s, (Ok a, s).

Definition bind {S A B} (m : M S A) (k : A → M S B) : M S B :=
  λ s, match m s with
       | (Ok a, s') => k a s'
       | (Raise e, s') => (Raise e, s')
       end.

Definition raise {S A} (e : exn) : M S A := λ s, (Raise e, s).
Definition get_self {S} : M S S := λ s, (Ok s, s).
Definition lift {S A} (o : outcome A) : M S A := λ s, (o, s).

Declare Scope py_scope.
Delimit Scope py_scope with py.
Notation "x <- m ;; k" := (bind m (λ x, k))
  (at level 100, m at next level, right associativity) : py_scope.
Notation "m ;;; k" := (bind m (λ _, k))
  (at level 100, right associativity) : py_scope.

(** ** Built-in list operations used on [lru_cache] *)

(** [list.remove(x)]: drop the first occurrence; [None] when there is none
    (Python raises [ValueError]). *)
Fixpoint list_remove (x : string) (l : list string) : option (list string) :=
  match l with
  | [] => None
  | y :: l' =>
      if decide (x = y) then Some l'
      else match list_remove x l' with
           | Some r => Some (y :: r)
           | None => None
           end
  end.

(** What [if k in l: l.remove(k)] followed by [l.append(k)] leaves, and
    also what [l.remove(k); l.append(k)] leaves when [k] is in [l]. *)
Definition lru_touch (k : string) (l : list string) : list string :=
  match list_remove k l with
  | Some l' => l' ++ [k]
  | None => l ++ [k]
  end.

(** ** class ModelValidChecker *)

Module ModelValidChecker.

Record t : Type := mk {
  result : loc;      (* self.result: the payload, by reference *)
  module : loc;      (* self.module: the checked resource, by reference *)
  key_count : Z      (* self.key_count *)
}.

(** [get_latest_key_count(self)] reads only [self.module]; it is called
    from [__init__] before [self.key_count] exists, so it takes the
    reference rather than the record. *)
Definition get_latest_key_count (h : heap) (module : loc) : Z :=
  match h module with
  | PyModule state_dict => Z.of_nat (size state_dict)
  | PyDict items => Z.of_nat (size items)
  | _ => (-1)%Z
  end.

(** [result[0] if isinstance(result, tuple) else result]; indexing an
    empty tuple raises. *)
Definition first_place (h : heap) (result : loc) : outcome loc :=
  match h result with
  | PyTuple [] => Raise IndexError
  | PyTuple (m :: _) => Ok m
  | _ => Ok result
  end.

Definition __init__ (h : heap) (result : loc) : outcome t :=
  match first_place h result with
  | Ok m => Ok (mk result m (get_latest_key_count h m))
  | Raise e => Raise e
  end.

Definition is_valid (h : heap) (self : t) : bool :=
  if decide (key_count self = get_latest_key_count h (module self))
  then true else false.

Definition get_result (self : t) : loc := result self.

End ModelValidChecker.

(** ** class ModelCache *)

Definition CACHE_MAXSIZE : Z := 100.

Module ModelCache.

Record t : Type := mk {
  valid_checker_map : gmap string ModelValidChecker.t;
  lru_cache : list string;
  maxsize : Z
}.

(** [__init__] takes no argument and reads the module constant
    [CACHE_MAXSIZE]; the constant read is made explicit here, and [new]
    is the constructor as the program runs it. *)
Definition fresh (cache_maxsize : Z) : t := mk ∅ [] cache_maxsize.

Definition __init__ (cache_maxsize : Z) : outcome t :=
  Ok (fresh cache_maxsize).

Definition new : outcome t := __init__ CACHE_MAXSIZE.

(** *** Attribute updates *)

Definition set_lru (l : list string) : M t unit :=
  λ s, (Ok tt, mk (valid_checker_map s) l (maxsize s)).
Definition set_map (m : gmap string ModelValidChecker.t) : M t unit :=
  λ s, (Ok tt, mk m (lru_cache s) (maxsize s)).

(** [self.lru_cache.pop(0)] *)
Definition lru_pop0 : M t string :=
  (self <- get_self ;;
   match lru_cache self with
   | [] => raise IndexError
   | k :: l => set_lru l ;;; ret k
   end)%py.

(** [self.lru_cache.remove(k)] *)
Definition lru_remove (k : string) : M t unit :=
  (self <- get_self ;;
   match list_remove k (lru_cache self) with
   | None => raise ValueError
   | Some l => set_lru l
   end)%py.

(** [self.lru_cache.append(k)] *)
Definition lru_append (k : string) : M t unit :=
  (self <- get_self ;; set_lru (lru_cache self ++ [k]))%py.

(** [del self.valid_checker_map[k]] *)
Definition map_delitem (k : string) : M t unit :=
  (self <- get_self ;;
   match valid_checker_map self !! k with
   | None => raise KeyError
   | Some _ => set_map (delete k (valid_checker_map self))
   end)%py.

(** [self.valid_checker_map[k] = c] *)
Definition map_setitem (k : string) (c : ModelValidChecker.t) : M t unit :=
  (self <- get_self ;; set_map (<[k := c]> (valid_checker_map self)))%py.

(** [self.valid_checker_map[k]] *)
Definition map_getitem (k : string) : M t ModelValidChecker.t :=
  (self <- get_self ;;
   match valid_checker_map self !! k with
   | None => raise KeyError
   | Some c => ret c
   end)%py.

(** *** Methods *)

(** A [ModelValidChecker] instance is always truthy (the class defines
    neither [__bool__] nor [__len__]), so [if checker:] tests presence. *)
Definition cached (h : heap) (model_key : string) : M t bool :=
  (self <- get_self ;;
   match valid_checker_map self !! model_key with
   | Some checker => ret (ModelValidChecker.is_valid h checker)
   | None => ret false
   end)%py.

(** [gc.collect()] and [torch.cuda.empty_cache()] do not touch the cache
    object and are left out. *)
Definition register_model (h : heap) (model_key : string) (result : loc)
  : M t unit :=
  (self <- get_self ;;
   (if decide (maxsize self ≤ Z.of_nat (length (lru_cache self)))%Z
    then del_key <- lru_pop0 ;; map_delitem del_key
    else ret tt) ;;;
   checker <- lift (ModelValidChecker.__init__ h result) ;;
   map_setitem model_key checker ;;;
   self <- get_self ;;
   (if decide (model_key ∈ lru_cache self)
    then lru_remove model_key
    else ret tt) ;;;
   lru_append model_key)%py.

Definition get_result (model_key : string) : M t loc :=
  (lru_remove model_key ;;;
   lru_append model_key ;;;
   checker <- map_getitem model_key ;;
   ret (ModelValidChecker.get_result checker))%py.

End ModelCache.

(** ** Call sequences *)

(** One call on the store.  Every call happens in the heap of its moment:
    between two calls outside code may have mutated any live object. *)
Inductive call : Type :=
| Cached (model_key : string)
| Register (model_key : string) (result : loc)
| GetResult (model_key : string).

(** The store after a call, whether it returned or raised. *)
Definition exec (h : heap) (c : call) (s : ModelCache.t) : ModelCache.t :=
  match c with
  | Cached k => snd (ModelCache.cached h k s)
  | Register k r => snd (ModelCache.register_model h k r s)
  | GetResult k => snd (ModelCache.get_result k s)
  end.

Fixpoint run (cs : list (heap * call)) (s : ModelCache.t) : ModelCache.t :=
  match cs with
  | [] => s
  | (h, c) :: cs' => run cs' (exec h c s)
  end.

(** ** Auxiliary definitions for the statements *)

(** The checker [ModelValidChecker(result)] builds when it does not raise
    and the resource is [m]. *)
Definition checker_of (h : heap) (r m : loc) : ModelValidChecker.t :=
  ModelValidChecker.mk r m (ModelValidChecker.get_latest_key_count h m).

(** The tail of [register_model]: store the checker, move the key to the
    most-recently-used end. *)
Definition store_and_touch (k : string) (c : ModelValidChecker.t)
    (s : ModelCache.t) : ModelCache.t :=
  ModelCache.mk (<[k := c]> (ModelCache.valid_checker_map s))
    (lru_touch k (ModelCache.lru_cache s)) (ModelCache.maxsize s).

(** The store after the eviction step at capacity: the head [d] of the
    recency list is popped, leaving [l], and its entry is deleted. *)
Definition evicted (d : string) (l : list string) (s : ModelCache.t)
  : ModelCache.t :=
  ModelCache.mk (delete d (ModelCache.valid_checker_map s)) l
    (ModelCache.maxsize s).

(** A method that never assigns [self.maxsize]. *)
Definition keeps_maxsize {A} (m : M ModelCache.t A) : Prop :=
  ∀ s, ModelCache.maxsize (snd (m s)) = ModelCache.maxsize s.

(** The store invariant: the recency list has no duplicate, names exactly
    the keys of the mapping, and is no longer than [maxsize]. *)
Record store_inv (s : ModelCache.t) : Prop := {
  inv_nodup : NoDup (ModelCache.lru_cache s);
  inv_keys : ∀ k,
    k ∈ ModelCache.lru_cache s ↔ is_Some (ModelCache.valid_checker_map s !! k);
  inv_bound :
    (Z.of_nat (length (ModelCache.lru_cache s)) ≤ ModelCache.maxsize s)%Z
}.

(** A [register_model] call: the heap it runs in, the key, the payload. *)
Definition register_calls (calls : list (heap * (string * loc)))
  : list (heap * call) :=
  (λ x, (x.1, Register x.2.1 x.2.2)) <$> calls.

Definition call_keys (calls : list (heap * (string * loc))) : list string :=
  (λ x, x.2.1) <$> calls.

(** The payload of the call is not the empty tuple. *)
Definition payload_ok (x : heap * (string * loc)) : Prop :=
  x.1 x.2.2 ≠ PyTuple [].

(** The key [k], with checker [c], has at most [j] keys after it in the
    recency list (at most [j] keys were used more recently). *)
Definition recent_within (k : string) (c : ModelValidChecker.t) (j : nat)
    (s : ModelCache.t) : Prop :=
  ModelCache.valid_checker_map s !! k = Some c ∧
  ∃ pre post, ModelCache.lru_cache s = pre ++ k :: post ∧ length post ≤ j.

(** ** Sample objects *)

(** A heap with a two-key dict, a one-key dict, a module with two
    parameters, a tuple whose first place is that module, an object of
    another type (an [int], say) and the empty tuple. *)
Definition sample_heap : heap := λ p,
  match p with
  | 0 => PyDict {[ "x" := 10; "y" := 11 ]}
  | 1 => PyDict {[ "x" := 10 ]}
  | 2 => PyModule {[ "weight" := 12; "bias" := 13 ]}
  | 3 => PyTuple [2; 4]
  | 5 => PyTuple []
  | _ => PyOther
  end.

(** [sample_heap] after [del d["y"]] on the dict at 0. *)
Definition sample_heap_released : heap := λ p,
  match p with
  | 0 => PyDict {[ "x" := 10 ]}
  | _ => sample_heap p
  end.

(** The keys ["0"], ["1"], ... and a store filled by registering the first
    [n] of them, each with the dict at 0 as payload. *)
Definition sample_keys (n : nat) : list string := pretty <$> seq 0 n.

Definition sample_calls (n : nat) : list (heap * call) :=
  (λ k, (sample_heap, Register k 0)) <$> sample_keys n.

Definition sample_store (n : nat) : ModelCache.t :=
  run (sample_calls n) (ModelCache.fresh CACHE_MAXSIZE).

(** The same registrations as calls with their heap. *)
Definition sample_registrations (n : nat) : list (heap * (string * loc)) :=
  (λ k, (sample_heap, (k, 0))) <$> sample_keys n.

(** 99 registrations of keys other than ["99"]: fifty with the empty
    tuple as payload, forty-nine of new keys with the one-key dict. *)
Definition sample_other_registrations : list (heap * (string * loc)) :=
  ((λ k, (sample_heap, (k, 5))) <$> sample_keys 50)
  ++ ((λ k, (sample_heap, (k, 1))) <$> drop 100 (sample_keys 149)).

(** ** The decorator [cache_model] *)

(** What a decorated call runs in: the live objects and the one
    [ModelCache] instance ([ModelCache()] is a singleton, so every
    [ModelCache()] in [wrapper] denotes the same store). *)
Definition world : Type := heap * ModelCache.t.

(** A method call on the store, in the heap of the moment. *)
Definition on_cache {A} (m : heap → M ModelCache.t A) : M world A :=
  λ w, match m w.1 w.2 with (o, s') => (o, (w.1, s')) end.

(** [wrapper] of [cache_model(func)], from the point where [model_key] is
    known ([generate_cache_key] delegates to [functools._make_key]).  The
    decorated [func], already applied to its arguments, is any computation
    on the world: it may allocate and mutate objects, use the cache itself,
    and raise. *)
Definition cache_model (func : M world loc) (model_key : string)
  : M world loc :=
  (hit <- on_cache (λ h, ModelCache.cached h model_key) ;;
   if hit then on_cache (λ _, ModelCache.get_result model_key)
   else result <- func ;;
        on_cache (λ h, ModelCache.register_model h model_key result) ;;;
        ret result)%py.

(** A [func] that builds nothing new: it returns the object at [r]. *)
Definition sample_func (r : loc) : M world loc := ret r.

(** A [func] that raises. *)
Definition failing_func : M world loc := raise KeyError.

(** A computation on the world that keeps the store invariant. *)
Definition keeps_inv {A} (f : M world A) : Prop :=
  ∀ w, store_inv w.2 → store_inv (snd (f w)).2.

(** A decorated function that calls another decorated function. *)
Definition sample_nested : M world loc :=
  cache_model (cache_model (sample_func 0) "inner") "outer".

(** * Properties *)

(** ** [list.remove] and the recency list *)

Section list_remove.
Implicit Types (k x y : string) (l : list string).

Lemma list_remove_None k l : list_remove k l = None ↔ k ∉ l.
Proof.
  induction l as [|y l IH]; simpl.
  - split; [intros _; apply not_elem_of_nil | done].
  - rewrite not_elem_of_cons. destruct (decide (k = y)) as [->|Hne].
    + split; [done | intros [? _]; done].
    + destruct (list_remove k l) eqn:E.
      * split; [done |]. intros [_ Hk]. apply IH in Hk. done.
      * split; [| done]. intros _. split; [done | by apply IH].
Qed.

Lemma list_remove_Some_perm k l l' :
  list_remove k l = Some l' → l ≡ₚ k :: l'.
Proof.
  revert l'. induction l as [|y l IH]; intros l'; simpl; [done |].
  destruct (decide (k = y)) as [->|Hne].
  - intros [= ->]. done.
  - destruct (list_remove k l) as [r|] eqn:E; [| done].
    intros [= <-]. rewrite (IH r eq_refl). apply Permutation_swap.
Qed.

Lemma list_remove_is_Some k l : k ∈ l → is_Some (list_remove k l).
Proof.
  intros Hk. destruct (list_remove k l) eqn:E; [by eexists |].
  apply list_remove_None in E. done.
Qed.

Lemma filter_ne_absent k l : k ∉ l → filter (λ y, y ≠ k) l = l.
Proof.
  induction l as [|y l IH]; [done |].
  intros [Hne Hk]%not_elem_of_cons.
  rewrite filter_cons_True by done. f_equal. by apply IH.
Qed.

(** On a duplicate-free list, removing the first occurrence removes the
    key and keeps the order of all others. *)
Lemma list_remove_filter k l l' :
  NoDup l → list_remove k l = Some l' → l' = filter (λ y, y ≠ k) l.
Proof.
  revert l'. induction l as [|y l IH]; intros l' Hnd; simpl; [done |].
  apply NoDup_cons in Hnd as [Hy Hnd].
  destruct (decide (k = y)) as [->|Hne].
  - intros [= <-]. rewrite filter_cons_False by (intros ?; done).
    symmetry. by apply filter_ne_absent.
  - destruct (list_remove k l) as [r|] eqn:E; [| done].
    intros [= <-]. rewrite filter_cons_True by done.
    f_equal. by apply IH.
Qed.

Lemma lru_touch_absent k l : k ∉ l → lru_touch k l = l ++ [k].
Proof. intros Hk. unfold lru_touch. by apply list_remove_None in Hk as ->. Qed.

Lemma lru_touch_present k l :
  k ∈ l → ∃ l', list_remove k l = Some l' ∧ lru_touch k l = l' ++ [k].
Proof.
  intros [l' E]%list_remove_is_Some. exists l'. unfold lru_touch.
  by rewrite E.
Qed.

Lemma lru_touch_filter k l :
  NoDup l → lru_touch k l = filter (λ y, y ≠ k) l ++ [k].
Proof.
  intros Hnd. unfold lru_touch. destruct (list_remove k l) as [l'|] eqn:E.
  - by rewrite (list_remove_filter k l l').
  - apply list_remove_None in E. by rewrite filter_ne_absent.
Qed.

Lemma lru_touch_last k l : last (lru_touch k l) = Some k.
Proof. unfold lru_touch. destruct (list_remove k l); apply last_snoc. Qed.

Lemma elem_of_lru_touch k l y : y ∈ lru_touch k l ↔ y = k ∨ y ∈ l.
Proof.
  unfold lru_touch. destruct (list_remove k l) as [l'|] eqn:E.
  - apply list_remove_Some_perm in E. rewrite E.
    rewrite elem_of_app, list_elem_of_singleton, elem_of_cons. tauto.
  - rewrite elem_of_app, list_elem_of_singleton. tauto.
Qed.

Lemma NoDup_lru_touch k l : NoDup l → NoDup (lru_touch k l).
Proof.
  intros Hnd. rewrite lru_touch_filter by done.
  apply NoDup_app. split_and!.
  - by apply NoDup_filter.
  - intros x [Hx _]%list_elem_of_filter ->%list_elem_of_singleton. done.
  - apply NoDup_singleton.
Qed.

Lemma length_lru_touch_present k l :
  k ∈ l → length (lru_touch k l) = length l.
Proof.
  intros (l' & E & ->)%lru_touch_present.
  apply list_remove_Some_perm in E. rewrite E, length_app. simpl. lia.
Qed.

Lemma length_lru_touch_absent k l :
  k ∉ l → length (lru_touch k l) = S (length l).
Proof. intros ->%lru_touch_absent. rewrite length_app. simpl. lia. Qed.

Lemma length_lru_touch_le k l : length (lru_touch k l) ≤ S (length l).
Proof.
  destruct (decide (k ∈ l)).
  - rewrite length_lru_touch_present by done. lia.
  - rewrite length_lru_touch_absent by done. lia.
Qed.
End list_remove.

(** ** The methods as equations *)

Ltac py_unfold :=
  unfold ModelCache.register_model, ModelCache.get_result, ModelCache.cached,
    ModelCache.lru_pop0, ModelCache.lru_remove, ModelCache.lru_append,
    ModelCache.map_delitem, ModelCache.map_setitem, ModelCache.map_getitem,
    ModelCache.set_lru, ModelCache.set_map,
    bind, ret, raise, get_self, lift; simpl.

Section methods.
Implicit Types (h : heap) (k d : string) (r m : loc) (l : list string).
Implicit Types (mp : gmap string ModelValidChecker.t) (cap : Z).
Implicit Types (s : ModelCache.t) (c : ModelValidChecker.t).

Lemma checker_init_Ok h r m :
  ModelValidChecker.first_place h r = Ok m →
  ModelValidChecker.__init__ h r = Ok (checker_of h r m).
Proof. unfold ModelValidChecker.__init__. by intros ->. Qed.

Lemma checker_init_Raise h r e :
  ModelValidChecker.first_place h r = Raise e →
  ModelValidChecker.__init__ h r = Raise e.
Proof. unfold ModelValidChecker.__init__. by intros ->. Qed.

Lemma cached_eq h k s :
  ModelCache.cached h k s =
    (Ok match ModelCache.valid_checker_map s !! k with
        | Some c => ModelValidChecker.is_valid h c
        | None => false
        end, s).
Proof. py_unfold. by destruct (ModelCache.valid_checker_map s !! k). Qed.

Lemma get_result_absent k s :
  k ∉ ModelCache.lru_cache s →
  ModelCache.get_result k s = (Raise ValueError, s).
Proof. intros Hk%list_remove_None. py_unfold. by rewrite Hk. Qed.

Lemma get_result_present k s c :
  k ∈ ModelCache.lru_cache s →
  ModelCache.valid_checker_map s !! k = Some c →
  ModelCache.get_result k s =
    (Ok (ModelValidChecker.result c),
     ModelCache.mk (ModelCache.valid_checker_map s)
       (lru_touch k (ModelCache.lru_cache s)) (ModelCache.maxsize s)).
Proof.
  intros (l' & E & ->)%lru_touch_present Hc. py_unfold.
  rewrite E. simpl. by rewrite Hc.
Qed.

(** [get_result] on a key that is in the list but not in the mapping: the
    list is already updated when the lookup raises. *)
Lemma get_result_unmapped k s :
  k ∈ ModelCache.lru_cache s →
  ModelCache.valid_checker_map s !! k = None →
  ModelCache.get_result k s =
    (Raise KeyError,
     ModelCache.mk (ModelCache.valid_checker_map s)
       (lru_touch k (ModelCache.lru_cache s)) (ModelCache.maxsize s)).
Proof.
  intros (l' & E & ->)%lru_touch_present Hc. py_unfold.
  rewrite E. simpl. by rewrite Hc.
Qed.

Ltac touch_cases k l :=
  destruct (decide (k ∈ l)) as [Hk|Hk];
  [ apply lru_touch_present in Hk as (? & E & ->); simpl; by rewrite E
  | rewrite (lru_touch_absent k l) by done; done ].

Lemma register_below h k r s m :
  (Z.of_nat (length (ModelCache.lru_cache s)) < ModelCache.maxsize s)%Z →
  ModelValidChecker.first_place h r = Ok m →
  ModelCache.register_model h k r s =
    (Ok tt, store_and_touch k (checker_of h r m) s).
Proof.
  destruct s as [mp l cap]; simpl. intros Hlt Hm. py_unfold.
  rewrite decide_False by lia. rewrite (checker_init_Ok _ _ _ Hm).
  unfold store_and_touch; simpl. touch_cases k l.
Qed.

Lemma register_below_raise h k r s e :
  (Z.of_nat (length (ModelCache.lru_cache s)) < ModelCache.maxsize s)%Z →
  ModelValidChecker.first_place h r = Raise e →
  ModelCache.register_model h k r s = (Raise e, s).
Proof.
  destruct s as [mp l cap]; simpl. intros Hlt Hm. py_unfold.
  rewrite decide_False by lia. by rewrite (checker_init_Raise _ _ _ Hm).
Qed.

Lemma register_full h k r s d l c m :
  (ModelCache.maxsize s ≤ Z.of_nat (length (ModelCache.lru_cache s)))%Z →
  ModelCache.lru_cache s = d :: l →
  ModelCache.valid_checker_map s !! d = Some c →
  ModelValidChecker.first_place h r = Ok m →
  ModelCache.register_model h k r s =
    (Ok tt, store_and_touch k (checker_of h r m) (evicted d l s)).
Proof.
  destruct s as [mp l0 cap]; simpl. intros Hge -> Hd Hm. py_unfold.
  rewrite decide_True by done. simpl. rewrite Hd; simpl.
  rewrite (checker_init_Ok _ _ _ Hm).
  unfold store_and_touch, evicted; simpl. touch_cases k l.
Qed.

Lemma register_full_raise h k r s d l c e :
  (ModelCache.maxsize s ≤ Z.of_nat (length (ModelCache.lru_cache s)))%Z →
  ModelCache.lru_cache s = d :: l →
  ModelCache.valid_checker_map s !! d = Some c →
  ModelValidChecker.first_place h r = Raise e →
  ModelCache.register_model h k r s = (Raise e, evicted d l s).
Proof.
  destruct s as [mp l0 cap]; simpl. intros Hge -> Hd Hm. py_unfold.
  rewrite decide_True by done. simpl. rewrite Hd; simpl.
  by rewrite (checker_init_Raise _ _ _ Hm).
Qed.

Lemma register_full_empty h k r s :
  (ModelCache.maxsize s ≤ Z.of_nat (length (ModelCache.lru_cache s)))%Z →
  ModelCache.lru_cache s = [] →
  ModelCache.register_model h k r s = (Raise IndexError, s).
Proof.
  destruct s as [mp l0 cap]; simpl. intros Hge ->. py_unfold.
  by rewrite decide_True by done.
Qed.

Lemma register_full_unmapped h k r s d l :
  (ModelCache.maxsize s ≤ Z.of_nat (length (ModelCache.lru_cache s)))%Z →
  ModelCache.lru_cache s = d :: l →
  ModelCache.valid_checker_map s !! d = None →
  ModelCache.register_model h k r s =
    (Raise KeyError,
     ModelCache.mk (ModelCache.valid_checker_map s) l (ModelCache.maxsize s)).
Proof.
  destruct s as [mp l0 cap]; simpl. intros Hge -> Hd. py_unfold.
  rewrite decide_True by done. simpl. by rewrite Hd.
Qed.
End methods.

(** ** [maxsize] is never assigned after construction *)

Section keeps_maxsize.
Context {A B : Type}.

Lemma keeps_ret (a : A) : keeps_maxsize (ret a).
Proof. done. Qed.

Lemma keeps_raise (e : exn) : keeps_maxsize (@raise _ A e).
Proof. done. Qed.

Lemma keeps_lift (o : outcome A) : keeps_maxsize (lift o).
Proof. done. Qed.

Lemma keeps_get_self : keeps_maxsize get_self.
Proof. done. Qed.

Lemma keeps_bind (m : M ModelCache.t A) (k : A → M ModelCache.t B) :
  keeps_maxsize m → (∀ a, keeps_maxsize (k a)) → keeps_maxsize (bind m k).
Proof.
  intros Hm Hk s. unfold bind. specialize (Hm s).
  destruct (m s) as [[a|e] s']; simpl in *; [| done].
  by rewrite Hk.
Qed.
End keeps_maxsize.

Lemma keeps_set_lru l : keeps_maxsize (ModelCache.set_lru l).
Proof. done. Qed.

Lemma keeps_set_map mp : keeps_maxsize (ModelCache.set_map mp).
Proof. done. Qed.

Ltac keeps_step :=
  first
    [ apply keeps_bind | apply keeps_ret | apply keeps_raise
    | apply keeps_lift | apply keeps_get_self
    | apply keeps_set_lru | apply keeps_set_map
    | intro | case_match | case_decide ].

Lemma register_model_keeps h k r :
  keeps_maxsize (ModelCache.register_model h k r).
Proof.
  unfold ModelCache.register_model, ModelCache.lru_pop0, ModelCache.lru_remove,
    ModelCache.lru_append, ModelCache.map_delitem, ModelCache.map_setitem.
  repeat keeps_step.
Qed.

Lemma get_result_keeps k : keeps_maxsize (ModelCache.get_result k).
Proof.
  unfold ModelCache.get_result, ModelCache.lru_remove, ModelCache.lru_append,
    ModelCache.map_getitem.
  repeat keeps_step.
Qed.

(** ** The store invariant *)

Section invariant.
Implicit Types (h : heap) (k d : string) (r m : loc) (l : list string).
Implicit Types (s : ModelCache.t) (c : ModelValidChecker.t).

Lemma inv_fresh cap : (0 ≤ cap)%Z → store_inv (ModelCache.fresh cap).
Proof.
  intros Hcap. split; simpl.
  - apply NoDup_nil_2.
  - intros k. rewrite lookup_empty. split.
    + by intros ?%not_elem_of_nil.
    + by intros ?%is_Some_None.
  - lia.
Qed.

Lemma inv_dom s :
  store_inv s →
  dom (ModelCache.valid_checker_map s) = list_to_set (ModelCache.lru_cache s).
Proof.
  intros [_ Hk _]. apply set_eq. intros k.
  rewrite elem_of_dom, elem_of_list_to_set. by rewrite Hk.
Qed.

Lemma inv_size s :
  store_inv s →
  size (ModelCache.valid_checker_map s) = length (ModelCache.lru_cache s).
Proof.
  intros Hs. rewrite <- size_dom, (inv_dom s Hs).
  apply size_list_to_set, Hs.
Qed.

Lemma inv_evicted s d l :
  store_inv s → ModelCache.lru_cache s = d :: l →
  store_inv (evicted d l s) ∧
  (Z.of_nat (length l) < ModelCache.maxsize s)%Z.
Proof.
  intros [Hnd Hk Hb] E. rewrite E in Hnd, Hb.
  apply NoDup_cons in Hnd as [Hd Hnd]. simpl in Hb.
  split; [split; simpl | lia]; [done | | lia].
  intros k. rewrite lookup_delete. specialize (Hk k). rewrite E in Hk.
  rewrite elem_of_cons in Hk. case_decide as Hkd.
  - subst k. split; [done | by intros ?%is_Some_None].
  - rewrite <- Hk. split; [by right | intros [?|?]; congruence].
Qed.

Lemma inv_store_and_touch s k c :
  store_inv s →
  (Z.of_nat (length (ModelCache.lru_cache s)) < ModelCache.maxsize s)%Z →
  store_inv (store_and_touch k c s).
Proof.
  intros [Hnd Hk Hb] Hlt. split; simpl.
  - by apply NoDup_lru_touch.
  - intros k'. rewrite elem_of_lru_touch, lookup_insert.
    case_decide as E.
    + subst k'. split; [by eexists | by left].
    + rewrite <- Hk. split; [intros [?|?]; congruence | by right].
  - pose proof (length_lru_touch_le k (ModelCache.lru_cache s)). lia.
Qed.

Lemma inv_touch s k :
  store_inv s → k ∈ ModelCache.lru_cache s →
  store_inv (ModelCache.mk (ModelCache.valid_checker_map s)
               (lru_touch k (ModelCache.lru_cache s)) (ModelCache.maxsize s)).
Proof.
  intros [Hnd Hk Hb] Hin. split; simpl.
  - by apply NoDup_lru_touch.
  - intros k'. rewrite elem_of_lru_touch, <- Hk.
    split; [intros [->|?]; done | by right].
  - rewrite length_lru_touch_present by done. done.
Qed.

(** [register_model] keeps the invariant on every path, the raising ones
    included. *)
Lemma register_model_inv h k r s :
  store_inv s → store_inv (snd (ModelCache.register_model h k r s)).
Proof.
  intros Hs.
  destruct (decide (ModelCache.maxsize s
                    ≤ Z.of_nat (length (ModelCache.lru_cache s)))%Z)
    as [Hfull|Hbelow].
  - destruct (ModelCache.lru_cache s) as [|d l] eqn:El.
    { rewrite register_full_empty; [done | by rewrite El | done]. }
    assert (is_Some (ModelCache.valid_checker_map s !! d)) as [c Hd].
    { apply (inv_keys s Hs). rewrite El. by left. }
    destruct (inv_evicted s d l Hs El) as [He Hlt].
    destruct (ModelValidChecker.first_place h r) as [m|e] eqn:Em.
    + rewrite (register_full h k r s d l c m);
        [| by rewrite El | done..]. simpl.
      by apply inv_store_and_touch.
    + rewrite (register_full_raise h k r s d l c e);
        [done | by rewrite El | done..].
  - destruct (ModelValidChecker.first_place h r) as [m|e] eqn:Em.
    + rewrite (register_below h k r s m); [| lia | done]. simpl.
      apply inv_store_and_touch; [done | lia].
    + rewrite (register_below_raise h k r s e); [done | lia | done].
Qed.

Lemma get_result_inv k s :
  store_inv s → store_inv (snd (ModelCache.get_result k s)).
Proof.
  intros Hs. destruct (decide (k ∈ ModelCache.lru_cache s)) as [Hin|Hout].
  - destruct (proj1 (inv_keys s Hs k) Hin) as [c Hc].
    rewrite (get_result_present k s c) by done. simpl.
    by apply inv_touch.
  - by rewrite get_result_absent.
Qed.

Lemma exec_inv h (c : call) s : store_inv s → store_inv (exec h c s).
Proof.
  intros Hs. destruct c as [k|k r|k]; simpl.
  - by rewrite cached_eq.
  - by apply register_model_inv.
  - by apply get_result_inv.
Qed.

Lemma run_inv (cs : list (heap * call)) s :
  store_inv s → store_inv (run cs s).
Proof.
  revert s. induction cs as [|[h c] cs IH]; intros s Hs; simpl; [done |].
  by apply IH, exec_inv.
Qed.

Lemma exec_maxsize h (c : call) s :
  ModelCache.maxsize (exec h c s) = ModelCache.maxsize s.
Proof.
  destruct c as [k|k r|k]; simpl.
  - by rewrite cached_eq.
  - apply register_model_keeps.
  - apply get_result_keeps.
Qed.

Lemma run_maxsize (cs : list (heap * call)) s :
  ModelCache.maxsize (run cs s) = ModelCache.maxsize s.
Proof.
  revert s. induction cs as [|[h c] cs IH]; intros s; simpl; [done |].
  by rewrite IH, exec_maxsize.
Qed.
End invariant.

(** ** Successful registration *)

Section register_ok.
Implicit Types (h : heap) (k d : string) (r m : loc) (l : list string).
Implicit Types (s : ModelCache.t) (c : ModelValidChecker.t).

(** Only the empty tuple makes [ModelValidChecker(result)] raise. *)
Lemma first_place_Ok h r :
  h r ≠ PyTuple [] → ∃ m, ModelValidChecker.first_place h r = Ok m.
Proof.
  unfold ModelValidChecker.first_place. intros Hr.
  destruct (h r) as [sd|it|[|m elts]|]; by eauto.
Qed.

(** From a state satisfying the invariant with a positive [maxsize],
    [register_model] returns: it stores the new checker and touches the
    key, after evicting the head of the recency list when at capacity. *)
Lemma register_model_ok h k r s m :
  store_inv s → (1 ≤ ModelCache.maxsize s)%Z →
  ModelValidChecker.first_place h r = Ok m →
  ∃ s0,
    ModelCache.register_model h k r s
      = (Ok tt, store_and_touch k (checker_of h r m) s0) ∧
    store_inv s0 ∧
    (Z.of_nat (length (ModelCache.lru_cache s0)) < ModelCache.maxsize s0)%Z ∧
    ((Z.of_nat (length (ModelCache.lru_cache s)) < ModelCache.maxsize s)%Z
       ∧ s0 = s
     ∨ ∃ d l,
         (ModelCache.maxsize s ≤ Z.of_nat (length (ModelCache.lru_cache s)))%Z
         ∧ ModelCache.lru_cache s = d :: l ∧ s0 = evicted d l s).
Proof.
  intros Hs Hcap Hm.
  destruct (decide (ModelCache.maxsize s
                    ≤ Z.of_nat (length (ModelCache.lru_cache s)))%Z)
    as [Hfull|Hbelow].
  - destruct (ModelCache.lru_cache s) as [|d l] eqn:El.
    { simpl in Hfull. lia. }
    assert (is_Some (ModelCache.valid_checker_map s !! d)) as [c Hd].
    { apply (inv_keys s Hs). rewrite El. by left. }
    destruct (inv_evicted s d l Hs El) as [He Hlt].
    exists (evicted d l s). split_and!; [| done | done |].
    + apply (register_full h k r s d l c m); [by rewrite El | done..].
    + right. by exists d, l.
  - exists s. split_and!; [| done | lia |].
    + apply register_below; [lia | done].
    + left. split; [lia | done].
Qed.

Lemma store_and_touch_lookup k c s :
  ModelCache.valid_checker_map (store_and_touch k c s) !! k = Some c.
Proof. simpl. apply lookup_insert_eq. Qed.

Lemma store_and_touch_elem k c s :
  k ∈ ModelCache.lru_cache (store_and_touch k c s).
Proof. simpl. apply elem_of_lru_touch. by left. Qed.
End register_ok.

(** ** Validity checking *)

Section validity.
Implicit Types (h : heap) (k : string) (r m : loc).
Implicit Types (s : ModelCache.t) (c : ModelValidChecker.t).

Lemma is_valid_iff h c :
  ModelValidChecker.is_valid h c = true ↔
  ModelValidChecker.get_latest_key_count h (ModelValidChecker.module c)
    = ModelValidChecker.key_count c.
Proof.
  unfold ModelValidChecker.is_valid. case_decide; split; congruence.
Qed.

(** A count of names is never the sentinel. *)
Lemma sentinel_not_a_count (n : nat) : Z.of_nat n ≠ (-1)%Z.
Proof. lia. Qed.

Lemma key_count_unsupported h m :
  (∀ sd, h m ≠ PyModule sd) → (∀ d, h m ≠ PyDict d) →
  ModelValidChecker.get_latest_key_count h m = (-1)%Z.
Proof.
  unfold ModelValidChecker.get_latest_key_count. intros Hmod Hdict.
  destruct (h m) as [sd|d| |]; [by destruct (Hmod sd) | by destruct (Hdict d) | done..].
Qed.

(** The sentinel compares equal to itself: a checker built on an
    unsupported resource is valid for as long as the resource stays
    unsupported. *)
Lemma unsupported_is_valid h h' r m :
  (∀ sd, h m ≠ PyModule sd) → (∀ d, h m ≠ PyDict d) →
  (∀ sd, h' m ≠ PyModule sd) → (∀ d, h' m ≠ PyDict d) →
  ModelValidChecker.is_valid h' (checker_of h r m) = true.
Proof.
  intros ????. apply is_valid_iff. simpl.
  by rewrite !key_count_unsupported.
Qed.

(** Hence such an entry is reported as cached from its registration on. *)
Lemma unsupported_is_cached h h' k r m s :
  store_inv s → (1 ≤ ModelCache.maxsize s)%Z →
  ModelValidChecker.first_place h r = Ok m →
  (∀ sd, h m ≠ PyModule sd) → (∀ d, h m ≠ PyDict d) →
  (∀ sd, h' m ≠ PyModule sd) → (∀ d, h' m ≠ PyDict d) →
  ∃ s', ModelCache.register_model h k r s = (Ok tt, s') ∧
        ModelCache.cached h' k s' = (Ok true, s').
Proof.
  intros Hs Hcap Hm ????.
  destruct (register_model_ok h k r s m Hs Hcap Hm) as (s0 & -> & _).
  eexists. split; [done |].
  rewrite cached_eq, store_and_touch_lookup.
  by rewrite unsupported_is_valid.
Qed.
End validity.

(** C1 (the code at an unsupported payload).  Registering the object at 4 of
    [sample_heap], which is neither a module nor a dict, in a new store does
    not raise and stores the sentinel -1 as the signature; the following
    [cached] call for that key nevertheless returns [True], because
    [is_valid] compares the stored -1 with a freshly derived -1. *)
Theorem C1_unsupported_payload_is_cached :
  ∃ s c,
    ModelCache.register_model sample_heap "key" 4
      (ModelCache.fresh CACHE_MAXSIZE) = (Ok tt, s) ∧
    ModelCache.valid_checker_map s !! "key" = Some c ∧
    ModelValidChecker.key_count c = (-1)%Z ∧
    (∀ n : nat, ModelValidChecker.key_count c ≠ Z.of_nat n) ∧
    ModelCache.cached sample_heap "key" s = (Ok true, s).
Proof.
  eexists _, _. split_and!.
  - apply (register_below _ _ _ _ 4); [by vm_compute | done].
  - apply store_and_touch_lookup.
  - done.
  - intros n. simpl. unfold ModelValidChecker.get_latest_key_count. simpl. lia.
  - rewrite cached_eq, store_and_touch_lookup. done.
Qed.

(** C5.  [is_valid] is true exactly when the count freshly derived from the
    resource captured at construction equals the stored count; the count of
    a module is the number of names in its state dict and the count of a
    dict is its number of keys; and for a payload whose resource is a dict,
    [cached] is true right after [register_model] and false in any later
    heap in which that same dict has fewer keys. *)
Theorem C5_validity_gating :
  (∀ h c,
     ModelValidChecker.is_valid h c = true ↔
     ModelValidChecker.get_latest_key_count h (ModelValidChecker.module c)
       = ModelValidChecker.key_count c) ∧
  (∀ h m sd,
     h m = PyModule sd →
     ModelValidChecker.get_latest_key_count h m = Z.of_nat (size (dom sd))) ∧
  (∀ h m d,
     h m = PyDict d →
     ModelValidChecker.get_latest_key_count h m = Z.of_nat (size d)) ∧
  (∀ h k r m d s,
     store_inv s → (1 ≤ ModelCache.maxsize s)%Z →
     ModelValidChecker.first_place h r = Ok m → h m = PyDict d →
     ∃ s',
       ModelCache.register_model h k r s = (Ok tt, s') ∧
       ModelCache.cached h k s' = (Ok true, s') ∧
       ∀ h' d', h' m = PyDict d' → size d' < size d →
                ModelCache.cached h' k s' = (Ok false, s')).
Proof.
  split_and!.
  - apply is_valid_iff.
  - intros h m sd E. unfold ModelValidChecker.get_latest_key_count.
    by rewrite E, size_dom.
  - intros h m d E. unfold ModelValidChecker.get_latest_key_count.
    by rewrite E.
  - intros h k r m d s Hs Hcap Hm Hd.
    destruct (register_model_ok h k r s m Hs Hcap Hm) as (s0 & -> & _).
    eexists. split; [done |]. split.
    + rewrite cached_eq, store_and_touch_lookup. do 2 f_equal.
      by apply is_valid_iff.
    + intros h' d' Hd' Hlt. rewrite cached_eq, store_and_touch_lookup.
      do 2 f_equal. apply not_true_is_false. rewrite is_valid_iff. simpl.
      unfold ModelValidChecker.get_latest_key_count. rewrite Hd, Hd'. lia.
Qed.

Lemma C5_validity_gating_witness :
  ∃ s',
    ModelCache.register_model sample_heap "A" 0
      (ModelCache.fresh CACHE_MAXSIZE) = (Ok tt, s') ∧
    ModelCache.cached sample_heap "A" s' = (Ok true, s') ∧
    ModelCache.cached sample_heap_released "A" s' = (Ok false, s').
Proof.
  destruct (proj2 (proj2 (proj2 C5_validity_gating))
              sample_heap "A" 0 0 {[ "x" := 10; "y" := 11 ]}
              (ModelCache.fresh CACHE_MAXSIZE))
    as (s' & Hreg & Hhit & Hmiss).
  - apply inv_fresh. by vm_compute.
  - by vm_compute.
  - reflexivity.
  - reflexivity.
  - exists s'. split_and!; [done | done |].
    apply (Hmiss sample_heap_released {[ "x" := 10 ]}); [reflexivity |].
    vm_compute. lia.
Defined.

(** C6.  [cached] never raises and returns the store exactly as it found
    it; its answer is [True] exactly when the key has a checker and that
    checker is valid in the current heap.  In particular an entry that is
    present but invalid is answered [False] and stays in the mapping. *)
Theorem C6_cached_is_read_only (h : heap) (k : string) (s : ModelCache.t) :
  ∃ b,
    ModelCache.cached h k s = (Ok b, s) ∧
    (b = true ↔ ∃ c, ModelCache.valid_checker_map s !! k = Some c
                     ∧ ModelValidChecker.is_valid h c = true) ∧
    (∀ c, ModelCache.valid_checker_map s !! k = Some c →
          ModelValidChecker.is_valid h c = false →
          b = false ∧
          ModelCache.valid_checker_map (exec h (Cached k) s) !! k = Some c ∧
          ModelCache.lru_cache (exec h (Cached k) s) = ModelCache.lru_cache s).
Proof.
  rewrite cached_eq. eexists. split; [done |]. simpl. rewrite cached_eq. simpl.
  destruct (ModelCache.valid_checker_map s !! k) as [c|] eqn:E.
  - split.
    + split; [by eauto | by intros (? & [= <-] & ?)].
    + by intros ? [= <-] ?.
  - split; [| done]. split; [done | by intros (? & [=] & _)].
Qed.

(** ** The invariant along call sequences *)

(** C3.  After any finite sequence of [cached], [register_model] and
    [get_result] calls on a new store, made in whatever heaps and whether
    they return or raise, the mapping and the recency list hold the same
    keys, have the same length, and that length is at most [maxsize]. *)
Theorem C3_store_invariant (cap : Z) (cs : list (heap * call)) :
  (0 ≤ cap)%Z →
  let s := run cs (ModelCache.fresh cap) in
  dom (ModelCache.valid_checker_map s) = list_to_set (ModelCache.lru_cache s) ∧
  size (ModelCache.valid_checker_map s) = length (ModelCache.lru_cache s) ∧
  (Z.of_nat (length (ModelCache.lru_cache s)) ≤ ModelCache.maxsize s)%Z ∧
  ModelCache.maxsize s = cap.
Proof.
  intros Hcap s.
  assert (store_inv s) as Hs by by apply run_inv, inv_fresh.
  split_and!.
  - by apply inv_dom.
  - by apply inv_size.
  - apply Hs.
  - unfold s. by rewrite run_maxsize.
Qed.

Lemma C3_store_invariant_witness :
  let s := run [(sample_heap, Register "A" 0); (sample_heap, Cached "A");
                (sample_heap, GetResult "B"); (sample_heap, Register "B" 5);
                (sample_heap_released, Register "A" 3);
                (sample_heap, GetResult "A")]
             (ModelCache.fresh CACHE_MAXSIZE) in
  dom (ModelCache.valid_checker_map s) = list_to_set (ModelCache.lru_cache s) ∧
  size (ModelCache.valid_checker_map s) = length (ModelCache.lru_cache s) ∧
  (Z.of_nat (length (ModelCache.lru_cache s)) ≤ ModelCache.maxsize s)%Z ∧
  ModelCache.maxsize s = CACHE_MAXSIZE.
Proof. apply (C3_store_invariant CACHE_MAXSIZE). by vm_compute. Defined.

(** ** Retrieval *)

(** C7.  In a store satisfying the invariant, [get_result] on a present key
    returns the [result] reference its checker holds, and changes nothing
    but the recency list, where the key moves to the end and the other keys
    keep their order; the reference returned after a registration is the
    very reference registered.  On an absent key it raises [ValueError] and
    leaves the store as it was. *)
Theorem C7_get_result (k : string) (s : ModelCache.t) :
  store_inv s →
  (∀ c, ModelCache.valid_checker_map s !! k = Some c →
        ModelCache.get_result k s =
          (Ok (ModelValidChecker.result c),
           ModelCache.mk (ModelCache.valid_checker_map s)
             (filter (λ y, y ≠ k) (ModelCache.lru_cache s) ++ [k])
             (ModelCache.maxsize s))) ∧
  (ModelCache.valid_checker_map s !! k = None →
   ModelCache.get_result k s = (Raise ValueError, s)) ∧
  (∀ h r, (1 ≤ ModelCache.maxsize s)%Z → h r ≠ PyTuple [] →
          ∃ s', ModelCache.register_model h k r s = (Ok tt, s') ∧
                fst (ModelCache.get_result k s') = Ok r).
Proof.
  intros Hs. split_and!.
  - intros c Hc.
    assert (k ∈ ModelCache.lru_cache s) as Hin by (apply Hs; by eexists).
    rewrite (get_result_present k s c) by done.
    by rewrite lru_touch_filter by apply Hs.
  - intros Hc. apply get_result_absent. intros Hin%(inv_keys s Hs).
    rewrite Hc in Hin. by apply is_Some_None in Hin.
  - intros h r Hcap [m Hm]%first_place_Ok.
    destruct (register_model_ok h k r s m Hs Hcap Hm) as (s0 & -> & _).
    eexists. split; [done |].
    by rewrite (get_result_present k _ (checker_of h r m))
      by (apply store_and_touch_elem || apply store_and_touch_lookup).
Qed.

Lemma C7_get_result_witness :
  ModelCache.get_result "1" (sample_store 3) =
    (Ok 0, ModelCache.mk (ModelCache.valid_checker_map (sample_store 3))
             ["0"; "2"; "1"] CACHE_MAXSIZE) ∧
  ModelCache.get_result "7" (sample_store 3) =
    (Raise ValueError, sample_store 3) ∧
  ∃ s', ModelCache.register_model sample_heap "1" 3 (sample_store 3)
          = (Ok tt, s') ∧
        fst (ModelCache.get_result "1" s') = Ok 3.
Proof.
  destruct (C7_get_result "1" (sample_store 3)) as (Hhit & _ & Hreg).
  { apply run_inv, inv_fresh. by vm_compute. }
  destruct (C7_get_result "7" (sample_store 3)) as (_ & Hmiss & _).
  { apply run_inv, inv_fresh. by vm_compute. }
  split_and!.
  - apply (Hhit (ModelValidChecker.mk 0 0 2)). by vm_compute.
  - apply Hmiss. by vm_compute.
  - apply (Hreg sample_heap 3); [by vm_compute | discriminate].
Defined.

(** C10.  [get_result] consults no checker: on a present key it returns the
    stored reference and moves the key to the end of the recency list also
    in a heap where the entry's [is_valid] is false. *)
Theorem C10_get_result_ignores_validity
    (h : heap) (k : string) (s : ModelCache.t) (c : ModelValidChecker.t) :
  store_inv s →
  ModelCache.valid_checker_map s !! k = Some c →
  ModelValidChecker.is_valid h c = false →
  ModelCache.cached h k s = (Ok false, s) ∧
  ModelCache.get_result k s =
    (Ok (ModelValidChecker.result c),
     ModelCache.mk (ModelCache.valid_checker_map s)
       (filter (λ y, y ≠ k) (ModelCache.lru_cache s) ++ [k])
       (ModelCache.maxsize s)) ∧
  last (ModelCache.lru_cache (exec h (GetResult k) s)) = Some k.
Proof.
  intros Hs Hc Hinv.
  assert (k ∈ ModelCache.lru_cache s) as Hin by (apply Hs; by eexists).
  split_and!.
  - by rewrite cached_eq, Hc, Hinv.
  - rewrite (get_result_present k s c) by done.
    by rewrite lru_touch_filter by apply Hs.
  - simpl. rewrite (get_result_present k s c) by done. simpl.
    apply lru_touch_last.
Qed.

Lemma C10_get_result_ignores_validity_witness :
  ModelCache.cached sample_heap_released "1" (sample_store 3)
    = (Ok false, sample_store 3) ∧
  ModelCache.get_result "1" (sample_store 3) =
    (Ok 0, ModelCache.mk (ModelCache.valid_checker_map (sample_store 3))
             ["0"; "2"; "1"] CACHE_MAXSIZE) ∧
  last (ModelCache.lru_cache
          (exec sample_heap_released (GetResult "1") (sample_store 3)))
    = Some "1".
Proof.
  apply (C10_get_result_ignores_validity sample_heap_released "1"
           (sample_store 3) (ModelValidChecker.mk 0 0 2)).
  - apply run_inv, inv_fresh. by vm_compute.
  - by vm_compute.
  - by vm_compute.
Defined.

(** ** Construction *)

(** C9 as stated fails: the constructor validates nothing, so a constant
    below 1 is accepted like any other. *)
Lemma C9_capacity_not_rejected :
  (0 < 1)%Z ∧
  ModelCache.__init__ 0 = Ok (ModelCache.mk ∅ [] 0) ∧
  ¬ ∃ e, ModelCache.__init__ 0 = Raise e.
Proof. split_and!; [lia | done | by intros [e ?]]. Qed.

(** C9, amended.  The constructor takes no capacity: it always returns, with
    an empty mapping, an empty recency list and [maxsize] set to the module
    constant it reads, which is 100 in the program; no call on the store
    changes [maxsize] afterwards. *)
Theorem C9_construction :
  ModelCache.new = Ok (ModelCache.mk ∅ [] 100) ∧
  (∀ cap, ModelCache.__init__ cap = Ok (ModelCache.mk ∅ [] cap)) ∧
  (∀ cs s, ModelCache.maxsize (run cs s) = ModelCache.maxsize s).
Proof. split_and!; [done | done | apply run_maxsize]. Qed.

(** ** Eviction *)

(** C2 as stated fails: in the store holding the 100 keys ["0"] ... ["99"],
    registering the present key ["99"] again removes the entry of ["0"]. *)
Lemma C2_overwrite_at_capacity_evicts :
  let s := sample_store 100 in
  Z.of_nat (length (ModelCache.lru_cache s)) = ModelCache.maxsize s ∧
  is_Some (ModelCache.valid_checker_map s !! "99") ∧
  is_Some (ModelCache.valid_checker_map s !! "0") ∧
  ∃ s', ModelCache.register_model sample_heap "99" 1 s = (Ok tt, s') ∧
        ModelCache.valid_checker_map s' !! "0" = None ∧
        size (ModelCache.valid_checker_map s') = 99.
Proof.
  split_and!;
    [by vm_compute | vm_compute; by eexists | vm_compute; by eexists |].
  exists (exec sample_heap (Register "99" 1) (sample_store 100)).
  split_and!; [by vm_compute | by vm_compute | by vm_compute].
Qed.

(** C2, amended.  From a store satisfying the invariant, [register_model]
    with a payload other than the empty tuple returns with the new checker
    stored under the key and the key last in the recency list.  Below
    [maxsize] nothing is evicted: every other entry and the order of the
    other keys are kept.  At [maxsize] the head of the recency list is
    evicted first, whether or not the key is already present.  Registering
    a present key never increases the number of entries. *)
Theorem C2_register_model_eviction
    (h : heap) (k : string) (r m : loc) (s : ModelCache.t) :
  store_inv s → (1 ≤ ModelCache.maxsize s)%Z →
  ModelValidChecker.first_place h r = Ok m →
  ∃ s',
    ModelCache.register_model h k r s = (Ok tt, s') ∧
    ModelCache.valid_checker_map s' !! k = Some (checker_of h r m) ∧
    last (ModelCache.lru_cache s') = Some k ∧
    ((Z.of_nat (length (ModelCache.lru_cache s)) < ModelCache.maxsize s)%Z →
     ModelCache.valid_checker_map s'
       = <[k := checker_of h r m]> (ModelCache.valid_checker_map s) ∧
     ModelCache.lru_cache s'
       = filter (λ y, y ≠ k) (ModelCache.lru_cache s) ++ [k]) ∧
    ((ModelCache.maxsize s ≤ Z.of_nat (length (ModelCache.lru_cache s)))%Z →
     ∃ d l,
       ModelCache.lru_cache s = d :: l ∧
       ModelCache.valid_checker_map s'
         = <[k := checker_of h r m]>
             (delete d (ModelCache.valid_checker_map s)) ∧
       ModelCache.lru_cache s' = filter (λ y, y ≠ k) l ++ [k]) ∧
    (is_Some (ModelCache.valid_checker_map s !! k) →
     size (ModelCache.valid_checker_map s')
       ≤ size (ModelCache.valid_checker_map s)).
Proof.
  intros Hs Hcap Hm.
  destruct (register_model_ok h k r s m Hs Hcap Hm)
    as (s0 & Hreg & Hs0 & Hlt0 & Hcase).
  exists (store_and_touch k (checker_of h r m) s0).
  pose proof (inv_store_and_touch s0 k (checker_of h r m) Hs0 Hlt0) as Hs'.
  split_and!.
  - done.
  - apply store_and_touch_lookup.
  - apply lru_touch_last.
  - intros Hlt. destruct Hcase as [[_ ->]|(d & l & Hge & _)]; [| lia].
    split; [done |]. simpl. apply lru_touch_filter, Hs.
  - intros Hge. destruct Hcase as [[Hlt _]|(d & l & _ & El & ->)]; [lia |].
    exists d, l. split_and!; [done | done |]. simpl.
    apply lru_touch_filter, Hs0.
  - intros Hk%(inv_keys s Hs). rewrite (inv_size _ Hs'), (inv_size _ Hs).
    destruct Hcase as [[_ ->]|(d & l & _ & El & ->)]; simpl.
    + by rewrite length_lru_touch_present.
    + rewrite El. apply length_lru_touch_le.
Qed.

Lemma C2_register_model_eviction_witness :
  ∃ s',
    ModelCache.register_model sample_heap "1" 3 (sample_store 3) = (Ok tt, s') ∧
    ModelCache.valid_checker_map s' !! "1" = Some (ModelValidChecker.mk 3 2 2) ∧
    ModelCache.lru_cache s' = ["0"; "2"; "1"] ∧
    size (ModelCache.valid_checker_map s') ≤ 3.
Proof.
  destruct (C2_register_model_eviction sample_heap "1" 3 2 (sample_store 3))
    as (s' & Hreg & Hk & _ & Hbelow & _ & Hsize).
  - apply run_inv, inv_fresh. by vm_compute.
  - by vm_compute.
  - reflexivity.
  - exists s'. split_and!.
    + exact Hreg.
    + exact Hk.
    + apply Hbelow. by vm_compute.
    + apply Hsize. vm_compute. by eexists.
Defined.

(** ** Filling a new store *)

Section fill.
Implicit Types (calls : list (heap * (string * loc))) (cap : Z).

Lemma run_app (cs1 cs2 : list (heap * call)) (s : ModelCache.t) :
  run (cs1 ++ cs2) s = run cs2 (run cs1 s).
Proof.
  revert s. induction cs1 as [|[h c] cs1 IH]; intros s; simpl; [done |].
  apply IH.
Qed.

Lemma register_calls_snoc calls x :
  register_calls (calls ++ [x])
    = register_calls calls ++ [(x.1, Register x.2.1 x.2.2)].
Proof. unfold register_calls. by rewrite fmap_app. Qed.

Lemma call_keys_snoc calls x : call_keys (calls ++ [x]) = call_keys calls ++ [x.2.1].
Proof. unfold call_keys. by rewrite fmap_app. Qed.

(** Registering distinct keys, no more than [cap] of them, in a new
    store: the recency list is the keys in order of registration. *)
Lemma run_fill cap calls :
  (Z.of_nat (length calls) ≤ cap)%Z →
  NoDup (call_keys calls) → Forall payload_ok calls →
  let s := run (register_calls calls) (ModelCache.fresh cap) in
  ModelCache.lru_cache s = call_keys calls ∧ store_inv s
  ∧ ModelCache.maxsize s = cap.
Proof.
  induction calls as [|x calls IH] using rev_ind; intros Hlen Hnd Hok.
  - simpl. split_and!; [done | apply inv_fresh; simpl in Hlen; lia | done].
  - rewrite length_app in Hlen. simpl in Hlen.
    rewrite call_keys_snoc in Hnd. apply NoDup_app in Hnd as (Hnd & Hnew & _).
    apply Forall_app in Hok as [Hok Hx].
    rewrite Forall_singleton in Hx. unfold payload_ok in Hx.
    destruct IH as (Hl & Hs & Hc); [lia | done | done |].
    rewrite register_calls_snoc, run_app. simpl.
    set (s0 := run (register_calls calls) (ModelCache.fresh cap)) in *.
    destruct (first_place_Ok _ _ Hx) as [m Hm].
    rewrite (register_below x.1 x.2.1 x.2.2 s0 m); [| | done].
    + simpl. split_and!.
      * rewrite Hl, call_keys_snoc. apply lru_touch_absent.
        intros Hin. apply (Hnew _ Hin). by apply list_elem_of_singleton.
      * apply inv_store_and_touch; [done |].
        rewrite Hl, Hc. unfold call_keys. rewrite length_fmap. lia.
      * done.
    + rewrite Hl, Hc. unfold call_keys. rewrite length_fmap. lia.
Qed.
End fill.

(** C4.  Registering [cap + 1] distinct keys, each with a payload other
    than the empty tuple, in a new store of capacity [cap]: just before the
    last call the recency list is the first [cap] keys in order; after it,
    it is all keys but the first, so the last call removed the
    first-registered key and no other; and the mapping never holds more
    than [cap] entries after any call of the sequence. *)
Theorem C4_first_registered_is_evicted
    (cap : Z) (calls : list (heap * (string * loc))) :
  (1 ≤ cap)%Z → Z.of_nat (length calls) = (cap + 1)%Z →
  NoDup (call_keys calls) → Forall payload_ok calls →
  let before :=
    run (register_calls (take (Z.to_nat cap) calls)) (ModelCache.fresh cap) in
  let after := run (register_calls calls) (ModelCache.fresh cap) in
  ModelCache.lru_cache before = take (Z.to_nat cap) (call_keys calls) ∧
  ModelCache.lru_cache after = drop 1 (call_keys calls) ∧
  (∃ k0, head (call_keys calls) = Some k0 ∧
         dom (ModelCache.valid_checker_map before)
           ∖ dom (ModelCache.valid_checker_map after) = {[ k0 ]}) ∧
  (∀ n, (Z.of_nat (size (ModelCache.valid_checker_map
                           (run (register_calls (take n calls))
                              (ModelCache.fresh cap)))) ≤ cap)%Z).
Proof.
  intros Hcap Hlen Hnd Hok before after.
  assert (∀ n, store_inv (run (register_calls (take n calls))
                            (ModelCache.fresh cap))) as Hinv.
  { intros n. apply run_inv, inv_fresh. lia. }
  destruct calls as [|x calls _] using rev_ind; [simpl in Hlen; lia |].
  rewrite length_app in Hlen. simpl in Hlen.
  assert (length calls = Z.to_nat cap) as Hn by lia.
  assert (take (Z.to_nat cap) (calls ++ [x]) = calls) as Htake.
  { rewrite <- Hn. by rewrite take_app_length. }
  rewrite call_keys_snoc in *.
  pose proof Hnd as Hnd0. apply NoDup_app in Hnd0 as (Hnd1 & Hnew & _).
  apply Forall_app in Hok as [Hok Hx].
  rewrite Forall_singleton in Hx. unfold payload_ok in Hx.
  destruct (run_fill cap calls) as (Hl & Hs & Hc); [lia | done | done |].
  unfold before, after. rewrite Htake.
  rewrite register_calls_snoc, run_app. simpl.
  set (s0 := run (register_calls calls) (ModelCache.fresh cap)) in *.
  destruct (call_keys calls) as [|k0 ks] eqn:Ek.
  { apply (f_equal length) in Ek. unfold call_keys in Ek.
    rewrite length_fmap in Ek. simpl in Ek. lia. }
  assert (is_Some (ModelCache.valid_checker_map s0 !! k0)) as [c0 Hk0].
  { apply (inv_keys s0 Hs). rewrite Hl. by left. }
  destruct (first_place_Ok _ _ Hx) as [m Hm].
  assert (x.2.1 ∉ k0 :: ks) as Hfresh.
  { intros Hin. apply (Hnew _ Hin). by apply list_elem_of_singleton. }
  apply not_elem_of_cons in Hfresh as [Hne Hfresh].
  rewrite (register_full x.1 x.2.1 x.2.2 s0 k0 ks c0 m); [| | done..].
  2:{ rewrite Hl, Hc. apply (f_equal length) in Ek. unfold call_keys in Ek.
      rewrite length_fmap in Ek. simpl in *. lia. }
  split_and!.
  - rewrite Hl. symmetry. apply take_app_length'.
    rewrite <- Hn, <- Ek. unfold call_keys. by rewrite length_fmap.
  - simpl. by apply lru_touch_absent.
  - exists k0. split; [done |].
    rewrite (inv_dom s0 Hs), Hl. simpl.
    rewrite dom_insert_L, dom_delete_L, (inv_dom s0 Hs), Hl. simpl.
    apply NoDup_cons in Hnd1 as [Hk0' _].
    apply set_eq. intros y. set_unfold. split.
    + intros [[->|Hy] Hno]; [done |]. destruct Hno. right.
      split; [by right | by intros ->].
    + intros ->. split; [by left |]. intros [?|[_ ?]]; congruence.
  - intros n. specialize (Hinv n). rewrite (inv_size _ Hinv).
    pose proof (inv_bound _ Hinv) as Hb. by rewrite run_maxsize in Hb.
Qed.

Lemma C4_first_registered_is_evicted_witness :
  let calls := sample_registrations 101 in
  let before :=
    run (register_calls (take 100 calls)) (ModelCache.fresh CACHE_MAXSIZE) in
  let after := run (register_calls calls) (ModelCache.fresh CACHE_MAXSIZE) in
  ModelCache.lru_cache before = take 100 (call_keys calls) ∧
  ModelCache.lru_cache after = drop 1 (call_keys calls) ∧
  (∃ k0, head (call_keys calls) = Some k0 ∧
         dom (ModelCache.valid_checker_map before)
           ∖ dom (ModelCache.valid_checker_map after) = {[ k0 ]}) ∧
  (∀ n, (Z.of_nat (size (ModelCache.valid_checker_map
                           (run (register_calls (take n calls))
                              (ModelCache.fresh CACHE_MAXSIZE))))
         ≤ CACHE_MAXSIZE)%Z).
Proof.
  apply (C4_first_registered_is_evicted CACHE_MAXSIZE
           (sample_registrations 101)).
  - by vm_compute.
  - by vm_compute.
  - apply (bool_decide_unpack _). by vm_compute.
  - unfold sample_registrations. apply Forall_fmap, Forall_forall.
    intros k _. unfold payload_ok. simpl. discriminate.
Defined.

(** ** Recency promotion *)

(** C8.  In a store at capacity, with [maxsize] at least 2 (it is 100 in
    the program), [get_result] on a present key [k], alone or after a
    [cached] call, puts [k] last in the recency list; registering an absent
    key [k'] next evicts the key [d] that is first in the list after the
    promotion, the oldest key other than [k], and [k] keeps its entry. *)
Theorem C8_recency_promotion
    (h0 h1 h2 : heap) (k k' : string) (r : loc)
    (s : ModelCache.t) (c : ModelValidChecker.t) :
  store_inv s → (2 ≤ ModelCache.maxsize s)%Z →
  Z.of_nat (length (ModelCache.lru_cache s)) = ModelCache.maxsize s →
  ModelCache.valid_checker_map s !! k = Some c →
  ModelCache.valid_checker_map s !! k' = None →
  h2 r ≠ PyTuple [] →
  ∃ d l,
    filter (λ y, y ≠ k) (ModelCache.lru_cache s) = d :: l ∧
    ModelCache.lru_cache (exec h1 (GetResult k) s) = d :: l ++ [k] ∧
    let s2 := run [(h1, GetResult k); (h2, Register k' r)] s in
    d ≠ k ∧
    ModelCache.valid_checker_map s2 !! d = None ∧
    ModelCache.valid_checker_map s2 !! k = Some c ∧
    is_Some (ModelCache.valid_checker_map s2 !! k') ∧
    (∀ x, x ≠ d → x ≠ k' →
          ModelCache.valid_checker_map s2 !! x
            = ModelCache.valid_checker_map s !! x) ∧
    ModelCache.lru_cache s2 = l ++ [k; k'] ∧
    run [(h0, Cached k); (h1, GetResult k); (h2, Register k' r)] s = s2.
Proof.
  intros Hs Hcap Hfull Hk Hk' [m Hm]%first_place_Ok.
  assert (k ∈ ModelCache.lru_cache s) as Hin by (apply Hs; by eexists).
  assert (k' ∉ ModelCache.lru_cache s) as Hout.
  { intros Hin'%(inv_keys s Hs). rewrite Hk' in Hin'.
    by apply is_Some_None in Hin'. }
  pose proof (inv_nodup s Hs) as Hnd.
  pose proof (length_lru_touch_present k _ Hin) as Hlen.
  rewrite (lru_touch_filter k _ Hnd), length_app in Hlen. simpl in Hlen.
  destruct (filter (λ y, y ≠ k) (ModelCache.lru_cache s)) as [|d l] eqn:Ef.
  { simpl in Hlen. lia. }
  assert (d ≠ k ∧ d ∈ ModelCache.lru_cache s) as [Hdk Hd].
  { apply (list_elem_of_filter (λ y, y ≠ k)). rewrite Ef. by left. }
  assert (d ≠ k') as Hdk' by (by intros ->).
  assert (k ≠ k') as Hkk' by (by intros ->).
  destruct (proj1 (inv_keys s Hs d) Hd) as [cd Hcd].
  exists d, l. split; [done |].
  simpl. rewrite cached_eq. simpl.
  rewrite (get_result_present k s c) by done. simpl.
  rewrite (lru_touch_filter k _ Hnd), Ef.
  set (s1 := ModelCache.mk _ _ _).
  assert (store_inv s1) as Hs1.
  { unfold s1. change (d :: l) with ([] ++ d :: l). rewrite <- Ef.
    simpl. rewrite <- lru_touch_filter by done. by apply inv_touch. }
  rewrite (register_full h2 k' r s1 d (l ++ [k]) cd m); [| | done..].
  2:{ simpl. rewrite length_app. simpl. simpl in Hlen. lia. }
  simpl. split_and!; [done | done | | | | | | done].
  - rewrite lookup_insert_ne, lookup_delete_eq by done. done.
  - rewrite lookup_insert_ne, lookup_delete_ne by done. done.
  - rewrite lookup_insert_eq. by eexists.
  - intros x Hxd Hxk'. by rewrite lookup_insert_ne, lookup_delete_ne.
  - rewrite lru_touch_absent.
    + by rewrite <- app_assoc.
    + intros [Hl|Hl]%elem_of_app.
      * apply Hout. apply (list_elem_of_filter (λ y, y ≠ k)).
        rewrite Ef. by right.
      * apply list_elem_of_singleton in Hl. done.
Qed.

Lemma C8_recency_promotion_witness :
  let s := sample_store 100 in
  let s2 := run [(sample_heap, GetResult "0"); (sample_heap, Register "new" 1)]
              s in
  head (ModelCache.lru_cache s) = Some "0" ∧
  ModelCache.valid_checker_map s2 !! "1" = None ∧
  ModelCache.valid_checker_map s2 !! "0" = Some (ModelValidChecker.mk 0 0 2) ∧
  is_Some (ModelCache.valid_checker_map s2 !! "new") ∧
  run [(sample_heap, Cached "0"); (sample_heap, GetResult "0");
       (sample_heap, Register "new" 1)] s = s2.
Proof.
  intros s s2.
  destruct (C8_recency_promotion sample_heap sample_heap sample_heap
              "0" "new" 1 s (ModelValidChecker.mk 0 0 2))
    as (d & l & Ef & _ & _ & Hd & Hk & Hk' & _ & _ & Hrun).
  - apply run_inv, inv_fresh. by vm_compute.
  - by vm_compute.
  - by vm_compute.
  - by vm_compute.
  - by vm_compute.
  - discriminate.
  - vm_compute in Ef. injection Ef as <- _.
    split_and!; [by vm_compute | exact Hd | exact Hk | exact Hk' | exact Hrun].
Defined.

(** * Further properties of the code *)

(** ** What a registration records *)

(** X1.  After a registration that returns, [cached] for that key answers,
    in any later heap, whether the count derived from the captured
    resource is the count derived at registration: the names themselves,
    the other places of a tuple payload and every other object play no
    part, and a count that grew invalidates as one that shrank does. *)
Theorem cached_after_register_iff_same_count
    (h : heap) (k : string) (r m : loc) (s : ModelCache.t) :
  store_inv s → (1 ≤ ModelCache.maxsize s)%Z →
  ModelValidChecker.first_place h r = Ok m →
  ∃ s',
    ModelCache.register_model h k r s = (Ok tt, s') ∧
    ∀ h',
      ModelCache.cached h' k s' =
        (Ok (bool_decide
               (ModelValidChecker.get_latest_key_count h' m
                = ModelValidChecker.get_latest_key_count h m)), s').
Proof.
  intros Hs Hcap Hm.
  destruct (register_model_ok h k r s m Hs Hcap Hm) as (s0 & -> & _).
  eexists. split; [done |]. intros h'.
  rewrite cached_eq, store_and_touch_lookup. do 2 f_equal.
  case_bool_decide as E.
  - by apply is_valid_iff.
  - apply not_true_is_false. by rewrite is_valid_iff.
Qed.

Lemma cached_after_register_iff_same_count_witness :
  ∃ s',
    ModelCache.register_model sample_heap "A" 0 (sample_store 3) = (Ok tt, s') ∧
    ModelCache.cached sample_heap "A" s' = (Ok true, s') ∧
    ModelCache.cached sample_heap_released "A" s' = (Ok false, s').
Proof.
  destruct (cached_after_register_iff_same_count sample_heap "A" 0 0
              (sample_store 3)) as (s' & Hreg & Hc).
  - apply run_inv, inv_fresh. by vm_compute.
  - by vm_compute.
  - reflexivity.
  - exists s'. split_and!; [exact Hreg | apply Hc | apply Hc].
Defined.

(** X2.  For a tuple payload the checked resource is its first place only,
    while the stored and returned payload is the tuple itself: the checker
    holds both references, [get_result] gives the tuple back, and the entry
    stays valid in every heap in which the first place still has its count,
    whatever became of the other places. *)
Theorem tuple_payload_checks_first_place
    (h : heap) (k : string) (r m : loc) (rest : list loc) (s : ModelCache.t) :
  store_inv s → (1 ≤ ModelCache.maxsize s)%Z →
  h r = PyTuple (m :: rest) →
  ∃ s',
    ModelCache.register_model h k r s = (Ok tt, s') ∧
    ModelCache.valid_checker_map s' !! k
      = Some (ModelValidChecker.mk r m
                (ModelValidChecker.get_latest_key_count h m)) ∧
    fst (ModelCache.get_result k s') = Ok r ∧
    ∀ h', ModelValidChecker.get_latest_key_count h' m
            = ModelValidChecker.get_latest_key_count h m →
          ModelCache.cached h' k s' = (Ok true, s').
Proof.
  intros Hs Hcap Hr.
  assert (ModelValidChecker.first_place h r = Ok m) as Hm.
  { unfold ModelValidChecker.first_place. by rewrite Hr. }
  destruct (register_model_ok h k r s m Hs Hcap Hm) as (s0 & -> & _).
  eexists. split_and!; [done | apply store_and_touch_lookup | |].
  - by rewrite (get_result_present k _ (checker_of h r m))
      by (apply store_and_touch_elem || apply store_and_touch_lookup).
  - intros h' E. rewrite cached_eq, store_and_touch_lookup. do 2 f_equal.
    by apply is_valid_iff.
Qed.

Lemma tuple_payload_checks_first_place_witness :
  ∃ s',
    ModelCache.register_model sample_heap "T" 3 (sample_store 3) = (Ok tt, s') ∧
    ModelCache.valid_checker_map s' !! "T" = Some (ModelValidChecker.mk 3 2 2) ∧
    fst (ModelCache.get_result "T" s') = Ok 3 ∧
    ModelCache.cached sample_heap_released "T" s' = (Ok true, s').
Proof.
  destruct (tuple_payload_checks_first_place sample_heap "T" 3 2 [4]
              (sample_store 3)) as (s' & Hreg & Hc & Hget & Hvalid).
  - apply run_inv, inv_fresh. by vm_compute.
  - by vm_compute.
  - reflexivity.
  - exists s'. split_and!; [exact Hreg | exact Hc | exact Hget |].
    apply Hvalid. reflexivity.
Defined.

(** ** When [register_model] raises *)

(** X3.  On a store satisfying the invariant with a positive [maxsize],
    [register_model] raises exactly when the payload is the empty tuple, and
    then with [IndexError].  Below capacity the store is left as it was; at
    capacity the least-recently-used entry has already been evicted when the
    exception leaves, and the key is not stored. *)
Theorem register_model_raises_on_empty_tuple
    (h : heap) (k : string) (r : loc) (s : ModelCache.t) :
  store_inv s → (1 ≤ ModelCache.maxsize s)%Z →
  (h r ≠ PyTuple [] → fst (ModelCache.register_model h k r s) = Ok tt) ∧
  (h r = PyTuple [] →
   ((Z.of_nat (length (ModelCache.lru_cache s)) < ModelCache.maxsize s)%Z →
    ModelCache.register_model h k r s = (Raise IndexError, s)) ∧
   ((ModelCache.maxsize s ≤ Z.of_nat (length (ModelCache.lru_cache s)))%Z →
    ∃ d l,
      ModelCache.lru_cache s = d :: l ∧
      is_Some (ModelCache.valid_checker_map s !! d) ∧
      ModelCache.register_model h k r s = (Raise IndexError, evicted d l s) ∧
      ModelCache.valid_checker_map (evicted d l s) !! d = None)).
Proof.
  intros Hs Hcap. split.
  - intros [m Hm]%first_place_Ok.
    by destruct (register_model_ok h k r s m Hs Hcap Hm) as (s0 & -> & _).
  - intros Hr.
    assert (ModelValidChecker.first_place h r = Raise IndexError) as He.
    { unfold ModelValidChecker.first_place. by rewrite Hr. }
    split.
    + intros Hlt. by apply register_below_raise.
    + intros Hge. destruct (ModelCache.lru_cache s) as [|d l] eqn:El.
      { simpl in Hge. lia. }
      assert (is_Some (ModelCache.valid_checker_map s !! d)) as [c Hd].
      { apply (inv_keys s Hs). rewrite El. by left. }
      exists d, l. split_and!; [done | by eexists | |].
      * apply (register_full_raise h k r s d l c); [by rewrite El | done..].
      * simpl. apply lookup_delete_eq.
Qed.

Lemma register_model_raises_on_empty_tuple_witness :
  ModelCache.register_model sample_heap "new" 5 (sample_store 3)
    = (Raise IndexError, sample_store 3) ∧
  ModelCache.register_model sample_heap "new" 5 (sample_store 100)
    = (Raise IndexError,
       evicted "0" (drop 1 (sample_keys 100)) (sample_store 100)).
Proof.
  destruct (register_model_raises_on_empty_tuple sample_heap "new" 5
              (sample_store 3)) as [_ Hraise3].
  { apply run_inv, inv_fresh. by vm_compute. }
  { by vm_compute. }
  destruct (register_model_raises_on_empty_tuple sample_heap "new" 5
              (sample_store 100)) as [_ Hraise100].
  { apply run_inv, inv_fresh. by vm_compute. }
  { by vm_compute. }
  split.
  - apply Hraise3; [reflexivity | by vm_compute].
  - destruct (proj2 (Hraise100 eq_refl)) as (d & l & El & _ & -> & _).
    { by vm_compute. }
    vm_compute in El. by injection El as <- <-.
Defined.

(** X4.  With a [maxsize] of 0 or less nothing is ever cached: on the new
    store [register_model] raises [IndexError] (the eviction step pops from
    the empty list), and every sequence of calls leaves the store empty. *)
Theorem nonpositive_maxsize_caches_nothing
    (cap : Z) (cs : list (heap * call)) (h : heap) (k : string) (r : loc) :
  (cap ≤ 0)%Z →
  run cs (ModelCache.fresh cap) = ModelCache.fresh cap ∧
  ModelCache.register_model h k r (ModelCache.fresh cap)
    = (Raise IndexError, ModelCache.fresh cap).
Proof.
  intros Hcap. split.
  - induction cs as [|[h' c] cs IH]; simpl; [done |].
    replace (exec h' c (ModelCache.fresh cap)) with (ModelCache.fresh cap);
      [done |].
    destruct c as [k'|k' r'|k']; unfold exec.
    + by rewrite cached_eq.
    + rewrite register_full_empty; [done | simpl; lia | done].
    + rewrite get_result_absent; [done | apply not_elem_of_nil].
  - apply register_full_empty; [simpl; lia | done].
Qed.

Lemma nonpositive_maxsize_caches_nothing_witness :
  run [(sample_heap, Register "A" 0); (sample_heap, Cached "A");
       (sample_heap, GetResult "A")] (ModelCache.fresh 0)
    = ModelCache.fresh 0 ∧
  ModelCache.register_model sample_heap "A" 0 (ModelCache.fresh 0)
    = (Raise IndexError, ModelCache.fresh 0).
Proof. apply nonpositive_maxsize_caches_nothing. lia. Defined.

(** ** Eviction order and entry count *)

(** X5.  Which key is evicted and how the recency list ends up never
    depends on the heap or on the payload: two registrations of the same
    key on the same store, in any two heaps and with any two payloads other
    than the empty tuple, leave the same recency list and the same key set.
    In particular eviction ignores which entries are still valid. *)
Theorem register_model_order_ignores_heap
    (h h' : heap) (k : string) (r r' : loc) (s : ModelCache.t) :
  h r ≠ PyTuple [] → h' r' ≠ PyTuple [] →
  fst (ModelCache.register_model h k r s)
    = fst (ModelCache.register_model h' k r' s) ∧
  ModelCache.lru_cache (exec h (Register k r) s)
    = ModelCache.lru_cache (exec h' (Register k r') s) ∧
  dom (ModelCache.valid_checker_map (exec h (Register k r) s))
    = dom (ModelCache.valid_checker_map (exec h' (Register k r') s)).
Proof.
  intros [m Hm]%first_place_Ok [m' Hm']%first_place_Ok. unfold exec.
  destruct (decide (ModelCache.maxsize s
                    ≤ Z.of_nat (length (ModelCache.lru_cache s)))%Z)
    as [Hfull|Hbelow].
  - destruct (ModelCache.lru_cache s) as [|d l] eqn:El.
    { rewrite !register_full_empty; first [done | by rewrite El]. }
    destruct (ModelCache.valid_checker_map s !! d) as [c|] eqn:Hd.
    + rewrite (register_full h k r s d l c m),
        (register_full h' k r' s d l c m');
        [| first [done | by rewrite El] ..].
      simpl. by rewrite !dom_insert_L.
    + rewrite !(register_full_unmapped _ _ _ s d l);
        first [done | by rewrite El].
  - rewrite (register_below h k r s m), (register_below h' k r' s m');
      [| first [done | lia] ..].
    simpl. by rewrite !dom_insert_L.
Qed.

Lemma register_model_order_ignores_heap_witness :
  ModelCache.lru_cache
    (exec sample_heap (Register "k" 0) (sample_store 100))
    = ModelCache.lru_cache
        (exec sample_heap_released (Register "k" 4) (sample_store 100)).
Proof.
  destruct (register_model_order_ignores_heap sample_heap sample_heap_released
              "k" 0 4 (sample_store 100)) as (_ & Hlru & _);
    [discriminate | discriminate | exact Hlru].
Defined.

(** X6.  The exact entry count after a registration that returns.  Below
    capacity an absent key adds one entry and a present key adds none.  At
    capacity an absent key keeps the count (one out, one in), and so does
    the key that is itself least recently used; a present key that is not
    least recently used leaves the store one entry short. *)
Theorem register_model_entry_count
    (h : heap) (k : string) (r : loc) (s : ModelCache.t) :
  store_inv s → (1 ≤ ModelCache.maxsize s)%Z → h r ≠ PyTuple [] →
  let n := size (ModelCache.valid_checker_map s) in
  let n' := size (ModelCache.valid_checker_map (exec h (Register k r) s)) in
  let full :=
    (ModelCache.maxsize s ≤ Z.of_nat (length (ModelCache.lru_cache s)))%Z in
  (¬ full → ModelCache.valid_checker_map s !! k = None → n' = S n) ∧
  (¬ full → is_Some (ModelCache.valid_checker_map s !! k) → n' = n) ∧
  (full → ModelCache.valid_checker_map s !! k = None → n' = n) ∧
  (full → head (ModelCache.lru_cache s) = Some k → n' = n) ∧
  (full → is_Some (ModelCache.valid_checker_map s !! k) →
   head (ModelCache.lru_cache s) ≠ Some k → S n' = n).
Proof.
  intros Hs Hcap [m Hm]%first_place_Ok n n' full. unfold n, n', full, exec.
  destruct (register_model_ok h k r s m Hs Hcap Hm)
    as (s0 & -> & Hs0 & Hlt0 & Hcase). simpl snd.
  pose proof (inv_store_and_touch s0 k (checker_of h r m) Hs0 Hlt0) as Hs'.
  rewrite (inv_size _ Hs'), (inv_size _ Hs). simpl.
  assert (ModelCache.valid_checker_map s !! k = None →
          k ∉ ModelCache.lru_cache s) as Habs.
  { intros E Hin%(inv_keys s Hs). rewrite E in Hin.
    by apply is_Some_None in Hin. }
  pose proof (inv_nodup s Hs) as Hnd.
  destruct Hcase as [[Hlt ->]|(d & l & Hge & El & ->)]; simpl.
  - split_and!; try (intros; lia).
    + intros _ Hk. by apply length_lru_touch_absent, Habs.
    + intros _ Hk%(inv_keys s Hs). by apply length_lru_touch_present.
  - rewrite El in *. apply NoDup_cons in Hnd as [Hd Hnd]. simpl in Hge |- *.
    split_and!; try (intros; lia).
    + intros _ Hk%Habs. apply not_elem_of_cons in Hk as [_ Hk].
      by apply length_lru_touch_absent.
    + intros _ [= ->]. by apply length_lru_touch_absent.
    + intros _ Hk%(inv_keys s Hs) Hne. rewrite El in Hk.
      apply elem_of_cons in Hk as [->|Hk]; [done |].
      f_equal. by apply length_lru_touch_present.
Qed.

Lemma register_model_entry_count_witness :
  size (ModelCache.valid_checker_map
          (exec sample_heap (Register "new" 0) (sample_store 3))) = 4 ∧
  size (ModelCache.valid_checker_map
          (exec sample_heap (Register "1" 0) (sample_store 3))) = 3 ∧
  size (ModelCache.valid_checker_map
          (exec sample_heap (Register "new" 0) (sample_store 100))) = 100 ∧
  size (ModelCache.valid_checker_map
          (exec sample_heap (Register "0" 0) (sample_store 100))) = 100 ∧
  S (size (ModelCache.valid_checker_map
             (exec sample_heap (Register "99" 0) (sample_store 100)))) = 100.
Proof.
  assert (∀ n, store_inv (sample_store n)) as Hinv.
  { intros n. apply run_inv, inv_fresh. by vm_compute. }
  split_and!.
  - destruct (register_model_entry_count sample_heap "new" 0 (sample_store 3))
      as (H & _); [apply Hinv | by vm_compute | discriminate |].
    rewrite H; [vm_compute; reflexivity | | vm_compute; reflexivity].
    intros Hle. vm_compute in Hle. apply Hle. reflexivity.
  - destruct (register_model_entry_count sample_heap "1" 0 (sample_store 3))
      as (_ & H & _); [apply Hinv | by vm_compute | discriminate |].
    rewrite H; [vm_compute; reflexivity | | vm_compute; eexists; reflexivity].
    intros Hle. vm_compute in Hle. apply Hle. reflexivity.
  - destruct (register_model_entry_count sample_heap "new" 0
                (sample_store 100))
      as (_ & _ & H & _); [apply Hinv | by vm_compute | discriminate |].
    rewrite H; [vm_compute; reflexivity | vm_compute; discriminate
               | vm_compute; reflexivity].
  - destruct (register_model_entry_count sample_heap "0" 0 (sample_store 100))
      as (_ & _ & _ & H & _); [apply Hinv | by vm_compute | discriminate |].
    rewrite H; [vm_compute; reflexivity | vm_compute; discriminate
               | vm_compute; reflexivity].
  - destruct (register_model_entry_count sample_heap "99" 0 (sample_store 100))
      as (_ & _ & _ & _ & H); [apply Hinv | by vm_compute | discriminate |].
    rewrite H; [vm_compute; reflexivity | vm_compute; discriminate
               | vm_compute; eexists; reflexivity | vm_compute; discriminate].
Defined.

(** ** Retrieval composes *)

Lemma lru_touch_idemp (k : string) (l : list string) :
  NoDup l → lru_touch k (lru_touch k l) = lru_touch k l.
Proof.
  intros Hnd.
  rewrite (lru_touch_filter k (lru_touch k l)) by by apply NoDup_lru_touch.
  rewrite (lru_touch_filter k l) by done.
  rewrite filter_app, filter_cons_False, filter_nil, app_nil_r
    by (intros Hne; by apply Hne).
  f_equal. apply filter_ne_absent.
  by intros [Hne _]%list_elem_of_filter.
Qed.

(** X7.  Retrieving a present key a second time returns the same payload
    reference and leaves the store exactly as the first retrieval left it. *)
Theorem get_result_twice
    (h : heap) (k : string) (s : ModelCache.t) (c : ModelValidChecker.t) :
  store_inv s → ModelCache.valid_checker_map s !! k = Some c →
  fst (ModelCache.get_result k s) = Ok (ModelValidChecker.result c) ∧
  ModelCache.get_result k (exec h (GetResult k) s)
    = (Ok (ModelValidChecker.result c), exec h (GetResult k) s).
Proof.
  intros Hs Hc.
  assert (k ∈ ModelCache.lru_cache s) as Hin by (apply Hs; by eexists).
  unfold exec. rewrite (get_result_present k s c) by done. simpl.
  split; [done |].
  rewrite (get_result_present k _ c); simpl.
  - by rewrite lru_touch_idemp by apply Hs.
  - apply elem_of_lru_touch. by left.
  - done.
Qed.

Lemma get_result_twice_witness :
  fst (ModelCache.get_result "1" (sample_store 3)) = Ok 0 ∧
  ModelCache.get_result "1" (exec sample_heap (GetResult "1") (sample_store 3))
    = (Ok 0, exec sample_heap (GetResult "1") (sample_store 3)).
Proof.
  apply (get_result_twice sample_heap "1" (sample_store 3)
           (ModelValidChecker.mk 0 0 2)).
  - apply run_inv, inv_fresh. by vm_compute.
  - vm_compute. reflexivity.
Defined.

(** ** After an eviction *)

(** X8.  A key evicted by a registration of another key is gone for good:
    in every heap [cached] answers [False] for it, and [get_result] on it
    raises [ValueError] without changing the store. *)
Theorem evicted_key_is_a_miss
    (h : heap) (k d : string) (l : list string) (r : loc) (s : ModelCache.t) :
  store_inv s →
  (ModelCache.maxsize s ≤ Z.of_nat (length (ModelCache.lru_cache s)))%Z →
  ModelCache.lru_cache s = d :: l → k ≠ d → h r ≠ PyTuple [] →
  let s' := exec h (Register k r) s in
  fst (ModelCache.register_model h k r s) = Ok tt ∧
  ModelCache.valid_checker_map s' !! d = None ∧
  (d ∉ ModelCache.lru_cache s') ∧
  (∀ h', ModelCache.cached h' d s' = (Ok false, s')) ∧
  ModelCache.get_result d s' = (Raise ValueError, s').
Proof.
  intros Hs Hfull El Hkd [m Hm]%first_place_Ok s'.
  assert (is_Some (ModelCache.valid_checker_map s !! d)) as [c Hd].
  { apply (inv_keys s Hs). rewrite El. by left. }
  pose proof (inv_nodup s Hs) as Hnd. rewrite El in Hnd.
  apply NoDup_cons in Hnd as [Hdl _].
  unfold s', exec. rewrite (register_full h k r s d l c m) by done.
  simpl fst. simpl snd.
  assert (ModelCache.valid_checker_map
            (store_and_touch k (checker_of h r m) (evicted d l s)) !! d = None)
    as Hgone.
  { simpl. rewrite lookup_insert_ne, lookup_delete_eq by done. done. }
  assert (d ∉ ModelCache.lru_cache
                (store_and_touch k (checker_of h r m) (evicted d l s)))
    as Hout.
  { simpl. rewrite elem_of_lru_touch. intros [->|?]; done. }
  split_and!; [done | done | done | |].
  - intros h'. by rewrite cached_eq, Hgone.
  - by apply get_result_absent.
Qed.

Lemma evicted_key_is_a_miss_witness :
  let s' := exec sample_heap (Register "new" 0) (sample_store 100) in
  fst (ModelCache.register_model sample_heap "new" 0 (sample_store 100))
    = Ok tt ∧
  ModelCache.valid_checker_map s' !! "0" = None ∧
  ("0" ∉ ModelCache.lru_cache s') ∧
  (∀ h', ModelCache.cached h' "0" s' = (Ok false, s')) ∧
  ModelCache.get_result "0" s' = (Raise ValueError, s').
Proof.
  apply (evicted_key_is_a_miss sample_heap "new" "0"
           (drop 1 (sample_keys 100)) 0 (sample_store 100)).
  - apply run_inv, inv_fresh. by vm_compute.
  - vm_compute. discriminate.
  - vm_compute. reflexivity.
  - discriminate.
  - discriminate.
Defined.

(** ** How long an entry is safe *)

Section survival.
Implicit Types (h : heap) (k d : string) (r m : loc) (l : list string).
Implicit Types (s : ModelCache.t) (c : ModelValidChecker.t) (j : nat).

Lemma recent_within_touch k c j s k' c' :
  store_inv s → k' ≠ k →
  recent_within k c j s → recent_within k c (S j) (store_and_touch k' c' s).
Proof.
  intros Hs Hne [Hc (pre & post & El & Hlen)]. split.
  - simpl. by rewrite lookup_insert_ne.
  - simpl. rewrite lru_touch_filter by apply Hs. rewrite El.
    rewrite filter_app, filter_cons_True by done.
    exists (filter (λ y, y ≠ k') pre), (filter (λ y, y ≠ k') post ++ [k']).
    split; [by rewrite <- app_assoc |].
    rewrite length_app. simpl.
    pose proof (length_filter (λ y, y ≠ k') post). lia.
Qed.

Lemma recent_within_evicted k c j s d l :
  store_inv s → ModelCache.lru_cache s = d :: l →
  (Z.of_nat j + 1 < Z.of_nat (length (ModelCache.lru_cache s)))%Z →
  recent_within k c j s → recent_within k c j (evicted d l s).
Proof.
  intros Hs El Hj [Hc (pre & post & Epre & Hlen)].
  rewrite El in Hj. rewrite El in Epre.
  destruct pre as [|d' pre].
  { simpl in Epre. injection Epre as -> ->. simpl in Hj. lia. }
  simpl in Epre. injection Epre as <- ->.
  pose proof (inv_nodup s Hs) as Hnd. rewrite El in Hnd.
  apply NoDup_cons in Hnd as [Hd _].
  assert (d ≠ k) as Hdk.
  { intros ->. apply Hd. apply elem_of_app. right. by left. }
  split.
  - simpl. by rewrite lookup_delete_ne.
  - by exists pre, post.
Qed.

(** One registration of another key, returning or raising. *)
Lemma recent_within_register h k c j s k' r :
  store_inv s → k' ≠ k → (Z.of_nat j + 1 < ModelCache.maxsize s)%Z →
  recent_within k c j s →
  recent_within k c (S j) (exec h (Register k' r) s).
Proof.
  intros Hs Hne Hj Hrec. unfold exec.
  assert (∀ s0, recent_within k c j s0 → recent_within k c (S j) s0) as Hmono.
  { intros s0 [? (pre & post & ? & ?)]. split; [done |].
    exists pre, post. split; [done | lia]. }
  destruct (decide (ModelCache.maxsize s
                    ≤ Z.of_nat (length (ModelCache.lru_cache s)))%Z)
    as [Hfull|Hbelow].
  - destruct (ModelCache.lru_cache s) as [|d l] eqn:El.
    { rewrite register_full_empty; [by apply Hmono | by rewrite El | done]. }
    assert (is_Some (ModelCache.valid_checker_map s !! d)) as [cd Hd].
    { apply (inv_keys s Hs). rewrite El. by left. }
    destruct (inv_evicted s d l Hs El) as [He _].
    assert (recent_within k c j (evicted d l s)) as Hrec'.
    { apply recent_within_evicted; [done | done | | done]. rewrite El. lia. }
    destruct (ModelValidChecker.first_place h r) as [m|e] eqn:Em.
    + rewrite (register_full h k' r s d l cd m); [| by rewrite El | done..].
      by apply recent_within_touch.
    + rewrite (register_full_raise h k' r s d l cd e);
        [by apply Hmono | by rewrite El | done..].
  - destruct (ModelValidChecker.first_place h r) as [m|e] eqn:Em.
    + rewrite (register_below h k' r s m); [| lia | done].
      by apply recent_within_touch.
    + rewrite (register_below_raise h k' r s e); [by apply Hmono | lia | done].
Qed.

Lemma recent_within_run k c (calls : list (heap * (string * loc))) j s :
  store_inv s → Forall (λ x, x.2.1 ≠ k) calls →
  (Z.of_nat (j + length calls) < ModelCache.maxsize s)%Z →
  recent_within k c j s →
  recent_within k c (j + length calls) (run (register_calls calls) s).
Proof.
  revert j s. induction calls as [|x calls IH]; intros j s Hs Hk Hlen Hrec.
  - simpl. by rewrite Nat.add_0_r.
  - apply Forall_cons in Hk as [Hx Hk]. simpl in Hlen |- *.
    replace (j + S (length calls)) with (S j + length calls) by lia.
    apply IH; [by apply (exec_inv _ (Register _ _)) | done | |].
    + pose proof (exec_maxsize x.1 (Register x.2.1 x.2.2) s) as Hmax.
      simpl in Hmax. rewrite Hmax. lia.
    + apply recent_within_register; [done | done | lia | done].
Qed.
End survival.

(** X9.  An entry that is most recently used stays in the store through
    any [maxsize - 1] registrations of other keys, whatever their payloads
    and whether they return or raise; its checker is untouched. *)
Theorem most_recent_entry_survives
    (k : string) (c : ModelValidChecker.t)
    (calls : list (heap * (string * loc))) (s : ModelCache.t) :
  store_inv s →
  last (ModelCache.lru_cache s) = Some k →
  ModelCache.valid_checker_map s !! k = Some c →
  Forall (λ x, x.2.1 ≠ k) calls →
  (Z.of_nat (length calls) < ModelCache.maxsize s)%Z →
  ModelCache.valid_checker_map (run (register_calls calls) s) !! k = Some c ∧
  k ∈ ModelCache.lru_cache (run (register_calls calls) s).
Proof.
  intros Hs Hlast Hc Hk Hlen.
  assert (recent_within k c 0 s) as Hrec.
  { split; [done |]. apply last_Some in Hlast as [pre ->].
    by exists pre, []. }
  destruct (recent_within_run k c calls 0 s Hs Hk Hlen Hrec)
    as [Hc' (pre & post & El & _)].
  split; [done |]. rewrite El. apply elem_of_app. right. by left.
Qed.

Lemma most_recent_entry_survives_witness :
  ModelCache.valid_checker_map
    (run (register_calls sample_other_registrations) (sample_store 100))
    !! "99" = Some (ModelValidChecker.mk 0 0 2) ∧
  "99" ∈ ModelCache.lru_cache
           (run (register_calls sample_other_registrations) (sample_store 100)).
Proof.
  apply (most_recent_entry_survives "99" (ModelValidChecker.mk 0 0 2)
           sample_other_registrations (sample_store 100)).
  - apply run_inv, inv_fresh. by vm_compute.
  - vm_compute. reflexivity.
  - vm_compute. reflexivity.
  - apply (bool_decide_unpack _). vm_compute. reflexivity.
  - vm_compute. reflexivity.
Defined.

(** ** First in, first out without re-access *)

Lemma run_fill_overflow (cap : Z) (calls : list (heap * (string * loc))) :
  (1 ≤ cap)%Z → NoDup (call_keys calls) → Forall payload_ok calls →
  let s := run (register_calls calls) (ModelCache.fresh cap) in
  ModelCache.lru_cache s
    = drop (length calls - Z.to_nat cap) (call_keys calls) ∧
  store_inv s ∧ ModelCache.maxsize s = cap.
Proof.
  intros Hcap.
  induction calls as [|x calls IH] using rev_ind; intros Hnd Hok.
  - simpl. split_and!; [done | apply inv_fresh; lia | done].
  - rewrite call_keys_snoc in Hnd. apply NoDup_app in Hnd as (Hnd & Hnew & _).
    apply Forall_app in Hok as [Hok Hx].
    rewrite Forall_singleton in Hx. unfold payload_ok in Hx.
    destruct IH as (Hl & Hs & Hc); [done | done |].
    rewrite register_calls_snoc, run_app, call_keys_snoc, length_app.
    simpl.
    set (s0 := run (register_calls calls) (ModelCache.fresh cap)) in *.
    destruct (first_place_Ok _ _ Hx) as [m Hm].
    assert (length (call_keys calls) = length calls) as Hlk.
    { unfold call_keys. by rewrite length_fmap. }
    assert (x.2.1 ∉ call_keys calls) as Hfresh.
    { intros Hin. apply (Hnew _ Hin). by apply list_elem_of_singleton. }
    destruct (decide (length calls < Z.to_nat cap)) as [Hlt|Hge].
    + replace (length calls - Z.to_nat cap) with 0 in Hl by lia.
      replace (length calls + 1 - Z.to_nat cap) with 0 by lia.
      rewrite drop_0 in Hl. rewrite drop_0.
      rewrite (register_below x.1 x.2.1 x.2.2 s0 m); [| | done].
      * simpl. split_and!; [| | done].
        -- rewrite Hl. by apply lru_touch_absent.
        -- apply inv_store_and_touch; [done |]. rewrite Hl, Hc, Hlk. lia.
      * rewrite Hl, Hc, Hlk. lia.
    + assert (length (ModelCache.lru_cache s0) = Z.to_nat cap) as Hfull.
      { rewrite Hl, length_drop, Hlk. lia. }
      destruct (ModelCache.lru_cache s0) as [|d l] eqn:El.
      { simpl in Hfull. lia. }
      assert (is_Some (ModelCache.valid_checker_map s0 !! d)) as [cd Hd].
      { apply (inv_keys s0 Hs). rewrite El. by left. }
      destruct (inv_evicted s0 d l Hs El) as [He Hlt'].
      assert (l = drop (S (length calls - Z.to_nat cap)) (call_keys calls))
        as Hl'.
      { replace (S (length calls - Z.to_nat cap))
          with ((length calls - Z.to_nat cap) + 1) by lia.
        by rewrite <- drop_drop, <- Hl. }
      assert (x.2.1 ∉ l) as Hfresh'.
      { rewrite Hl'. intros Hin. apply Hfresh.
        by apply (subseteq_drop _ _ _ Hin). }
      rewrite (register_full x.1 x.2.1 x.2.2 s0 d l cd m);
        [| rewrite El, Hc; simpl in *; lia | done..].
      simpl. split_and!; [| by apply inv_store_and_touch | done].
      rewrite lru_touch_absent by done.
      replace (length calls + 1 - Z.to_nat cap)
        with (S (length calls - Z.to_nat cap)) by lia.
      rewrite drop_app_le by (rewrite Hlk; lia). by rewrite Hl'.
Qed.

(** X10.  Registering any number of distinct keys, with payloads other than
    the empty tuple, in a new store leaves exactly the last [cap] of them,
    in order of registration: without re-access eviction is first in,
    first out. *)
Theorem distinct_registrations_keep_the_last
    (cap : Z) (calls : list (heap * (string * loc))) :
  (1 ≤ cap)%Z → NoDup (call_keys calls) → Forall payload_ok calls →
  let s := run (register_calls calls) (ModelCache.fresh cap) in
  ModelCache.lru_cache s
    = drop (length calls - Z.to_nat cap) (call_keys calls) ∧
  dom (ModelCache.valid_checker_map s)
    = list_to_set (drop (length calls - Z.to_nat cap) (call_keys calls)).
Proof.
  intros Hcap Hnd Hok s.
  destruct (run_fill_overflow cap calls Hcap Hnd Hok) as (Hl & Hs & _).
  split; [done |]. fold s in Hl, Hs. by rewrite (inv_dom s Hs), Hl.
Qed.

Lemma distinct_registrations_keep_the_last_witness :
  ModelCache.lru_cache
    (run (register_calls (sample_registrations 149))
       (ModelCache.fresh CACHE_MAXSIZE))
    = drop 49 (sample_keys 149).
Proof.
  destruct (distinct_registrations_keep_the_last CACHE_MAXSIZE
              (sample_registrations 149)) as [Hl _].
  - vm_compute. discriminate.
  - apply (bool_decide_unpack _). vm_compute. reflexivity.
  - unfold sample_registrations. apply Forall_fmap, Forall_forall.
    intros k _. unfold payload_ok. simpl. discriminate.
  - rewrite Hl. vm_compute. reflexivity.
Defined.

(** ** The decorator *)

Section decorator.
Implicit Types (h : heap) (k : string) (r : loc) (func : M world loc).
Implicit Types (s : ModelCache.t) (c : ModelValidChecker.t).

Lemma cache_model_hit func k h s :
  fst (ModelCache.cached h k s) = Ok true →
  cache_model func k (h, s) =
    (fst (ModelCache.get_result k s), (h, snd (ModelCache.get_result k s))).
Proof.
  rewrite cached_eq. simpl. intros [= E].
  unfold cache_model, bind, on_cache. simpl. rewrite cached_eq, E. simpl.
  by destruct (ModelCache.get_result k s).
Qed.

Lemma cache_model_miss func k h s :
  fst (ModelCache.cached h k s) = Ok false →
  cache_model func k (h, s) =
    match func (h, s) with
    | (Ok r, w) =>
        match ModelCache.register_model w.1 k r w.2 with
        | (Ok _, s') => (Ok r, (w.1, s'))
        | (Raise e, s') => (Raise e, (w.1, s'))
        end
    | (Raise e, w) => (Raise e, w)
    end.
Proof.
  rewrite cached_eq. simpl. intros [= E].
  unfold cache_model, bind, on_cache. simpl. rewrite cached_eq, E. simpl.
  destruct (func (h, s)) as [[r|e] w]; [| done]. unfold ret.
  by destruct (ModelCache.register_model w.1 k r w.2) as [[[]|e] s'].
Qed.
End decorator.

(** X11.  On a hit (the key has a checker that is valid in the current
    heap) the decorated function is not run: whatever [func] is, the call
    returns the stored payload reference, leaves the heap and the mapping
    as they were, and moves the key to the most-recently-used end. *)
Theorem cache_model_hit_skips_func
    (func : M world loc) (h : heap) (k : string)
    (s : ModelCache.t) (c : ModelValidChecker.t) :
  store_inv s →
  ModelCache.valid_checker_map s !! k = Some c →
  ModelValidChecker.is_valid h c = true →
  cache_model func k (h, s) =
    (Ok (ModelValidChecker.result c),
     (h, ModelCache.mk (ModelCache.valid_checker_map s)
           (filter (λ y, y ≠ k) (ModelCache.lru_cache s) ++ [k])
           (ModelCache.maxsize s))).
Proof.
  intros Hs Hc Hv.
  assert (k ∈ ModelCache.lru_cache s) as Hin by (apply Hs; by eexists).
  rewrite cache_model_hit by by rewrite cached_eq, Hc, Hv.
  rewrite (get_result_present k s c) by done. simpl.
  by rewrite lru_touch_filter by apply Hs.
Qed.

Lemma cache_model_hit_skips_func_witness :
  cache_model failing_func "1" (sample_heap, sample_store 3) =
    (Ok 0,
     (sample_heap,
      ModelCache.mk (ModelCache.valid_checker_map (sample_store 3))
        ["0"; "2"; "1"] CACHE_MAXSIZE)).
Proof.
  apply (cache_model_hit_skips_func failing_func sample_heap "1"
           (sample_store 3) (ModelValidChecker.mk 0 0 2)).
  - apply run_inv, inv_fresh. by vm_compute.
  - vm_compute. reflexivity.
  - vm_compute. reflexivity.
Defined.

(** X12.  On a miss (no checker for the key, or one that is no longer
    valid) [func] is run and, when it returns a payload other than the
    empty tuple, the call returns that very reference and registers it;
    an immediately following call with the same key, in the heap [func]
    left, returns the same reference again without running its function.
    This holds for every type of resource. *)
Theorem cache_model_miss_then_hit
    (func func' : M world loc) (h h1 : heap) (k : string) (r : loc)
    (s s1 : ModelCache.t) :
  fst (ModelCache.cached h k s) = Ok false →
  func (h, s) = (Ok r, (h1, s1)) →
  store_inv s1 → (1 ≤ ModelCache.maxsize s1)%Z → h1 r ≠ PyTuple [] →
  ∃ s2 s3,
    cache_model func k (h, s) = (Ok r, (h1, s2)) ∧
    ModelCache.register_model h1 k r s1 = (Ok tt, s2) ∧
    cache_model func' k (h1, s2) = (Ok r, (h1, s3)) ∧
    ModelCache.valid_checker_map s3 = ModelCache.valid_checker_map s2.
Proof.
  intros Hmiss Hfunc Hs1 Hcap [m Hm]%first_place_Ok.
  destruct (register_model_ok h1 k r s1 m Hs1 Hcap Hm)
    as (s0 & Hreg & Hs0 & Hlt0 & _).
  pose proof (inv_store_and_touch s0 k (checker_of h1 r m) Hs0 Hlt0) as Hs2.
  eexists _, _. split_and!.
  - rewrite cache_model_miss by done. rewrite Hfunc. simpl.
    by rewrite Hreg.
  - done.
  - apply (cache_model_hit_skips_func func' h1 k _ (checker_of h1 r m));
      [done | apply store_and_touch_lookup |].
    by apply is_valid_iff.
  - done.
Qed.

Lemma cache_model_miss_then_hit_witness :
  ∃ s2 s3,
    cache_model (sample_func 4) "1" (sample_heap_released, sample_store 3)
      = (Ok 4, (sample_heap_released, s2)) ∧
    ModelCache.register_model sample_heap_released "1" 4 (sample_store 3)
      = (Ok tt, s2) ∧
    cache_model failing_func "1" (sample_heap_released, s2)
      = (Ok 4, (sample_heap_released, s3)) ∧
    ModelCache.valid_checker_map s3 = ModelCache.valid_checker_map s2.
Proof.
  apply (cache_model_miss_then_hit (sample_func 4) failing_func
           sample_heap_released sample_heap_released "1" 4
           (sample_store 3) (sample_store 3)).
  - vm_compute. reflexivity.
  - reflexivity.
  - apply run_inv, inv_fresh. by vm_compute.
  - vm_compute. discriminate.
  - discriminate.
Defined.

(** X13.  When [func] returns the empty tuple on a miss, the decorated call
    raises [IndexError] instead of returning it, although [func] itself
    succeeded; no checker is registered: one found under the key afterwards
    is the one that was there before. *)
Theorem cache_model_empty_tuple_raises
    (func : M world loc) (h h1 : heap) (k : string) (r : loc)
    (s s1 : ModelCache.t) :
  fst (ModelCache.cached h k s) = Ok false →
  func (h, s) = (Ok r, (h1, s1)) →
  store_inv s1 → (1 ≤ ModelCache.maxsize s1)%Z → h1 r = PyTuple [] →
  ∃ s2,
    cache_model func k (h, s) = (Raise IndexError, (h1, s2)) ∧
    ∀ c, ModelCache.valid_checker_map s2 !! k = Some c →
         ModelCache.valid_checker_map s1 !! k = Some c.
Proof.
  intros Hmiss Hfunc Hs1 Hcap Hr.
  destruct (register_model_raises_on_empty_tuple h1 k r s1 Hs1 Hcap)
    as [_ Hraise].
  destruct (Hraise Hr) as [Hbelow Hfull].
  rewrite cache_model_miss by done. rewrite Hfunc. simpl.
  destruct (decide (ModelCache.maxsize s1
                    ≤ Z.of_nat (length (ModelCache.lru_cache s1)))%Z)
    as [Hge|Hlt].
  - destruct (Hfull Hge) as (d & l & _ & _ & -> & _).
    eexists. split; [done |].
    intros c. simpl. rewrite lookup_delete. by case_decide.
  - rewrite Hbelow by lia. by eexists.
Qed.

Lemma cache_model_empty_tuple_raises_witness :
  ∃ s2,
    cache_model (sample_func 5) "new" (sample_heap, sample_store 3)
      = (Raise IndexError, (sample_heap, s2)) ∧
    ModelCache.valid_checker_map s2 !! "new" = None.
Proof.
  destruct (cache_model_empty_tuple_raises (sample_func 5)
              sample_heap sample_heap "new" 5 (sample_store 3)
              (sample_store 3)) as (s2 & Hraise & Hold).
  - vm_compute. reflexivity.
  - reflexivity.
  - apply run_inv, inv_fresh. by vm_compute.
  - vm_compute. discriminate.
  - reflexivity.
  - exists s2. split; [exact Hraise |].
    destruct (ModelCache.valid_checker_map s2 !! "new") as [c|] eqn:E;
      [| reflexivity].
    specialize (Hold c eq_refl). vm_compute in Hold. discriminate Hold.
Defined.

(** X14.  Decorating keeps the store invariant: if [func] keeps it, so does
    the decorated call on every path, hit, miss or raise; decorated
    functions may therefore call one another to any depth. *)
Theorem cache_model_keeps_inv (func : M world loc) (k : string) :
  keeps_inv func → keeps_inv (cache_model func k).
Proof.
  intros Hfunc [h s] Hs. simpl in Hs.
  destruct (ModelCache.cached h k s) as [ob s0] eqn:Ec.
  rewrite cached_eq in Ec. injection Ec as <- <-.
  destruct (match ModelCache.valid_checker_map s !! k with
            | Some c => ModelValidChecker.is_valid h c
            | None => false
            end) eqn:Eb.
  - rewrite cache_model_hit by by rewrite cached_eq, Eb. simpl.
    by apply get_result_inv.
  - rewrite cache_model_miss by by rewrite cached_eq, Eb.
    specialize (Hfunc (h, s) Hs).
    destruct (func (h, s)) as [[r|e] [h1 s1]]; simpl in *; [| done].
    pose proof (register_model_inv h1 k r s1 Hfunc) as Hreg.
    by destruct (ModelCache.register_model h1 k r s1) as [[[]|e] s2].
Qed.

Lemma cache_model_keeps_inv_witness :
  store_inv (snd (sample_nested (sample_heap, sample_store 100))).2.
Proof.
  apply (cache_model_keeps_inv (cache_model (sample_func 0) "inner") "outer").
  - apply cache_model_keeps_inv. intros w Hw. exact Hw.
  - simpl. apply run_inv, inv_fresh. by vm_compute.
Defined.
